(** * Three-state cellular automata: rule tables and lattice evolution

    A shallow embedding of [three_state_unspaghetti.py] (functions
    [lookup_table], [spacetime_field] and the class [ECA]) together with
    the properties of the rule-number encoding and of the evolution
    loop. *)

From Stdlib Require Import ZArith String Ascii List Lia SpecFloat DecimalString.
From stdpp Require Import base option list gmap.

Local Open Scope Z_scope.

(** ** Python values and exceptions *)

(** The numbers a caller can pass where the code expects an [int]: Python
    integers are unbounded, Python floats are IEEE-754 binary64 values. *)
Inductive py_num : Type :=
  | PyInt (z : Z)
  | PyFloat (f : spec_float).

Inductive exn : Type :=
  | ValueError (msg : string)
  | KeyError
  | IndexError
  | OverflowError.

(** Outcome of running a piece of code: a value, a raised exception, or
    a loop that was cut off by the fuel of its model. *)
Inductive result (A : Type) : Type :=
  | Ok (a : A)
  | Raise (e : exn)
  | OutOfFuel.
Arguments Ok {A} a.
Arguments Raise {A} e.
Arguments OutOfFuel {A}.

Definition bind {A B : Type} (r : result A) (k : A -> result B) : result B :=
  match r with
  | Ok a => k a
  | Raise e => Raise e
  | OutOfFuel => OutOfFuel
  end.

Declare Scope py_scope.
Delimit Scope py_scope with py.
Notation "x <- e1 ;; e2" := (bind e1 (fun x => e2))
  (at level 100, e1 at next level, right associativity) : py_scope.
Local Open Scope py_scope.

(** [x < 0] on a Python number; every comparison with NaN is false. *)
Definition py_lt0 (x : py_num) : bool :=
  match x with
  | PyInt z => z <? 0
  | PyFloat f => SFltb f (S754_zero false)
  end.

(** [int(x)]: the identity on integers, truncation toward zero on finite
    floats; [int(nan)] raises ValueError and [int(inf)] OverflowError. *)
Definition py_int (x : py_num) : result Z :=
  match x with
  | PyInt z => Ok z
  | PyFloat (S754_zero _) => Ok 0
  | PyFloat (S754_finite s m e) =>
      let a := if 0 <=? e then Z.pos m * 2 ^ e else Z.pos m / 2 ^ (- e) in
      Ok (if s then - a else a)
  | PyFloat S754_nan => Raise (ValueError "cannot convert float NaN to integer")
  | PyFloat (S754_infinity _) => Raise OverflowError
  end.

(** [str(r)] for an integer. *)
Definition str (r : Z) : string := NilZero.string_of_int (Z.to_int r).

(** [int(s)] for a string of decimal digits with an optional sign. *)
Definition int_of_str (s : string) : result Z :=
  match NilEmpty.int_of_string s with
  | Some d => Ok (Z.of_int d)
  | None => Raise (ValueError "invalid literal for int() with base 10")
  end.

(** [s * k] for a string [s]: [k] copies, none when [k <= 0]. *)
Definition str_mul (s : string) (k : Z) : string :=
  String.concat "" (replicate (Z.to_nat k) s).

(** [reversed(s)] for a string: its characters, last one first, each a
    one-character string. *)
Definition reversed_str (s : string) : list string :=
  map (fun c => String c EmptyString) (rev (list_ascii_of_string s)).

(** [l[i]] with Python's negative indices. *)
Definition py_index {A : Type} (l : list A) (i : Z) : result A :=
  let n := Z.of_nat (length l) in
  let j := if i <? 0 then i + n else i in
  if (0 <=? j) && (j <? n) then
    match l !! Z.to_nat j with
    | Some x => Ok x
    | None => Raise IndexError
    end
  else Raise IndexError.

(** [range(n)]. *)
Definition range (n : Z) : list Z := map Z.of_nat (seq 0 (Z.to_nat n)).

(** [map(f, l)] for an [f] that may raise, forced from left to right.
    Python's [map] is lazy and [zip] would stop asking after the ninth
    element; [lookup_table] applies it to digit characters only, on which
    [int] never raises, so forcing the whole list changes nothing. *)
Fixpoint map_result {A B : Type} (f : A -> result B) (l : list A) : result (list B) :=
  match l with
  | [] => Ok []
  | x :: l' => y <- f x ;; ys <- map_result f l' ;; Ok (y :: ys)
  end.

(** [dict(pairs)]: a later pair overrides an earlier one with the same key. *)
Definition dict (pairs : list ((Z * Z) * Z)) : gmap (Z * Z) Z :=
  foldl (fun d kv => <[kv.1 := kv.2]> d) ∅ pairs.

(** [d[k]]. *)
Definition dict_get (d : gmap (Z * Z) Z) (k : Z * Z) : result Z :=
  match d !! k with
  | Some v => Ok v
  | None => Raise KeyError
  end.

(** ** [lookup_table] *)

Definition neighborhoods : list (Z * Z) :=
  [(0,0); (0,1); (0,2); (1,0); (1,1); (1,2); (2,0); (2,1); (2,2)].

(** The loop [while n: n, r = divmod(n, 3); nums.append(str(r))]. *)
Fixpoint while_n (fuel : nat) (n : Z) (nums : list string) : result (list string) :=
  match fuel with
  | O => OutOfFuel
  | S fuel' =>
      if n =? 0 then Ok nums
      else let '(q, r) := Z.div_eucl n 3 in
           while_n fuel' q (nums ++ [str r])
  end.

Definition lookup_table (rule_number : py_num) : result (gmap (Z * Z) Z) :=
  match rule_number with
  | PyFloat _ => Raise (ValueError "rule_number must be an int between 0 and 19682, inclusive")
  | PyInt rule_number =>
      if (rule_number <? 0) || (rule_number >? 19682) then
        Raise (ValueError "rule_number must be an int between 0 and 19682, inclusive")
      else
        let n := rule_number in
        nums <- while_n (S (Z.to_nat n)) n [] ;;
        let in_ternary := String.concat "" (rev nums) in
        let ternary_length := Z.of_nat (String.length in_ternary) in
        let in_ternary :=
          if negb (ternary_length =? 9) then
            let padding := 9 - ternary_length in
            (str_mul "0" padding ++ in_ternary)%string
          else in_ternary in
        outputs <- map_result int_of_str (reversed_str in_ternary) ;;
        Ok (dict (zip neighborhoods outputs))
  end.

(** ** The evolution loops *)

(** [i in [0,1,2]] for a cell value. *)
Definition in_012 (i : Z) : bool := (i =? 0) || (i =? 1) || (i =? 2).

(** The conversion of [time_steps] guarded by [try ... except ValueError],
    which replaces the ValueError of [int] by the function's own and lets
    every other exception through. *)
Definition try_int (time_steps : py_num) : result Z :=
  match py_int time_steps with
  | Raise (ValueError _) => Raise (ValueError "time_steps must be a non-negative integer")
  | r => r
  end.

(** The inner loop [for i in range(length)] of both [spacetime_field] and
    [ECA.evolve]: [is_] is what is left of the range, [new_configuration]
    the list built so far.  Python evaluates the two components of the
    neighborhood tuple from left to right, then the dictionary access.
    The body runs only for [i] in [range(length)], hence with
    [length > 0]: the modulus is never zero. *)
Fixpoint for_i (lookup : gmap (Z * Z) Z) (length : Z) (current_configuration : list Z)
    (is_ : list Z) (new_configuration : list Z) : result (list Z) :=
  match is_ with
  | [] => Ok new_configuration
  | i :: is' =>
      left <- py_index current_configuration ((i - 1) mod length) ;;
      self <- py_index current_configuration i ;;
      out <- dict_get lookup (left, self) ;;
      for_i lookup length current_configuration is' (new_configuration ++ [out])
  end.

(** The outer loop of [spacetime_field] over what is left of
    [range(time_steps)], on the local variables [current_configuration]
    and [spacetime_field]; the function returns the latter. *)
Fixpoint spacetime_field_for_t (lookup : gmap (Z * Z) Z) (length : Z) (ts : list Z)
    (current_configuration : list Z) (spacetime_field : list (list Z))
    : result (list (list Z)) :=
  match ts with
  | [] => Ok spacetime_field
  | _ :: ts' =>
      new_configuration <-
        for_i lookup length current_configuration (range length) [] ;;
      spacetime_field_for_t lookup length ts' new_configuration
        (spacetime_field ++ [new_configuration])
  end.

Definition spacetime_field (rule_number : py_num) (initial_condition : list Z)
    (time_steps : py_num) : result (list (list Z)) :=
  if py_lt0 time_steps then
    Raise (ValueError "time_steps must be a non-negative integer")
  else
    time_steps <- try_int time_steps ;;
    if negb (forallb in_012 initial_condition) then
      Raise (ValueError "initial condition must be a list of 0s, 1s and 2s")
    else
      lookup <- lookup_table rule_number ;;
      let length := Z.of_nat (length initial_condition) in
      spacetime_field_for_t lookup length (range time_steps)
        initial_condition [initial_condition].

(** ** The class [ECA] *)

Module ECA.

(** The attributes of an instance.  No method updates a list in place
    (a new list is bound or appended at each step), so an attribute holds
    the value of its list. *)
Record obj : Type := Build {
  self_lookup_table : gmap (Z * Z) Z;
  self_initial : list Z;
  self_spacetime : list (list Z);
  self_current_configuration : list Z;
  self_length : Z
}.

(** A method call: it may update the instance and then return or raise;
    an exception leaves the updates made before it in place. *)
Definition method (A : Type) : Type := obj -> obj * result A.

Definition and_then {A B : Type} (m : method A) (k : method B) : method B :=
  fun self =>
    match m self with
    | (self', Ok _) => k self'
    | (self', Raise e) => (self', Raise e)
    | (self', OutOfFuel) => (self', OutOfFuel)
    end.

Definition __init__ (rule_number : py_num) (initial_condition : list Z) : result obj :=
  if negb (forallb in_012 initial_condition) then
    Raise (ValueError "initial condition must be a list of 0s, 1s and 2s")
  else
    lookup <- lookup_table rule_number ;;
    Ok {| self_lookup_table := lookup;
          self_initial := initial_condition;
          self_spacetime := [initial_condition];
          self_current_configuration := initial_condition;
          self_length := Z.of_nat (length initial_condition) |}.

(** The loop [for _ in range(time_steps)] of [evolve]. *)
Fixpoint for_t (ts : list Z) : method unit :=
  fun self =>
    match ts with
    | [] => (self, Ok tt)
    | _ :: ts' =>
        match for_i (self_lookup_table self) (self_length self)
                    (self_current_configuration self) (range (self_length self)) [] with
        | Ok new_configuration =>
            for_t ts'
              {| self_lookup_table := self_lookup_table self;
                 self_initial := self_initial self;
                 self_spacetime := self_spacetime self ++ [new_configuration];
                 self_current_configuration := new_configuration;
                 self_length := self_length self |}
        | Raise e => (self, Raise e)
        | OutOfFuel => (self, OutOfFuel)
        end
    end.

Definition evolve (time_steps : py_num) : method unit :=
  fun self =>
    if py_lt0 time_steps then
      (self, Raise (ValueError "time_steps must be a non-negative integer"))
    else
      match try_int time_steps with
      | Ok time_steps => for_t (range time_steps) self
      | Raise e => (self, Raise e)
      | OutOfFuel => (self, OutOfFuel)
      end.

End ECA.

(** * Vocabulary of the properties *)

(** ** Ternary digits, cell values and tables *)

(** The remainders the [while] loop produces, least significant first. *)
Fixpoint lsd_digits (fuel : nat) (n : Z) : list Z :=
  match fuel with
  | O => []
  | S fuel' => if n =? 0 then [] else n mod 3 :: lsd_digits fuel' (n / 3)
  end.

(** The digit of weight [3 ^ k] in the ternary numeral of [n]. *)
Definition ternary_digit (n : Z) (k : nat) : Z := (n / 3 ^ Z.of_nat k) mod 3.

Definition is_digit (d : Z) : Prop := 0 <= d <= 2.

Definition digit_ascii (d : Z) : ascii :=
  match d with
  | 1 => "1"
  | 2 => "2"
  | _ => "0"
  end%char.

Definition valid_rule (r : Z) : Prop := 0 <= r <= 19682.

(** The nine low ternary digits of [r], least significant first. *)
Definition rule_digits (r : Z) : list Z := map (ternary_digit r) (seq 0 9).

(** Position of a neighborhood in the canonical order. *)
Definition neighborhood_index (k : Z * Z) : nat := Z.to_nat (3 * k.1 + k.2).

Definition valid_config (c : list Z) : Prop := Forall is_digit c.

(** A table that answers every neighborhood of cell values with a cell value. *)
Definition total_table (d : gmap (Z * Z) Z) : Prop :=
  forall a b, is_digit a -> is_digit b -> exists v, d !! (a, b) = Some v /\ is_digit v.

(** ** Generations *)

(** The table's answer for the neighborhood of position [i] in [previous]:
    the cell to the left on the ring of length [length previous], and the
    cell itself. *)
Definition rule_output (lookup : gmap (Z * Z) Z) (previous : list Z) (i : nat) : option Z :=
  left ← previous !! Z.to_nat ((Z.of_nat i - 1) mod Z.of_nat (length previous));
  self ← previous !! i;
  lookup !! (left, self).

(** The body of the inner loop. *)
Definition next_cell (lookup : gmap (Z * Z) Z) (length : Z) (current_configuration : list Z)
    (i : Z) : result Z :=
  left <- py_index current_configuration ((i - 1) mod length) ;;
  self <- py_index current_configuration i ;;
  dict_get lookup (left, self).

(** The configuration the inner loop builds from [cur]. *)
Definition sweep (lookup : gmap (Z * Z) Z) (cur : list Z) : list Z :=
  map (fun i => default 0 (rule_output lookup cur i)) (seq 0 (length cur)).

(** What [__init__] establishes and [evolve] maintains. *)
Definition well_formed (s : ECA.obj) : Prop :=
  total_table (ECA.self_lookup_table s) /\
  valid_config (ECA.self_current_configuration s) /\
  ECA.self_length s = Z.of_nat (length (ECA.self_current_configuration s)).

(** The state after one more generation of a well-formed engine. *)
Definition advance (s : ECA.obj) : ECA.obj :=
  let new_configuration :=
    sweep (ECA.self_lookup_table s) (ECA.self_current_configuration s) in
  {| ECA.self_lookup_table := ECA.self_lookup_table s;
     ECA.self_initial := ECA.self_initial s;
     ECA.self_spacetime := ECA.self_spacetime s ++ [new_configuration];
     ECA.self_current_configuration := new_configuration;
     ECA.self_length := ECA.self_length s |}.

(** The [k] generations that follow [cur]. *)
Fixpoint generations (lookup : gmap (Z * Z) Z) (k : nat) (cur : list Z) : list (list Z) :=
  match k with
  | O => []
  | S k' => sweep lookup cur :: generations lookup k' (sweep lookup cur)
  end.

(** The number whose ternary digits, least significant first, are [ds]. *)
Definition rule_of_digits (ds : list Z) : Z := foldr (fun d acc => d + 3 * acc) 0 ds.

(** The outputs of a table in canonical neighborhood order ([0] where the
    table has no entry). *)
Definition outputs_of (d : gmap (Z * Z) Z) : list Z :=
  map (fun k => default 0 (d !! k)) neighborhoods.

(** ** A concrete engine: rule 22 on six cells *)

Definition rule22_table : gmap (Z * Z) Z :=
  dict (zip neighborhoods [1; 1; 2; 0; 0; 0; 0; 0; 0]).

Definition initial22 : list Z := [0; 0; 2; 0; 1; 0].

(** The rule-22 engine whose history is [history] and whose current
    configuration is [current]. *)
Definition engine22 (history : list (list Z)) (current : list Z) : ECA.obj :=
  {| ECA.self_lookup_table := rule22_table;
     ECA.self_initial := initial22;
     ECA.self_spacetime := history;
     ECA.self_current_configuration := current;
     ECA.self_length := 6 |}.

(** The float [2.5], that is [5 * 2^50 * 2^-51] with a 53-bit mantissa. *)
Definition float_2_5 : spec_float := S754_finite false 5629499534213120 (-51).

(** * The rest of the code *)

(** ** [unit_seed] *)

(** [l * k] for a list [l]: [k] copies in a row, none when [k <= 0]. *)
Definition list_mul {A : Type} (l : list A) (k : Z) : list A :=
  List.concat (replicate (Z.to_nat k) l).

Definition unit_seed (margin_length : py_num) : result (list Z) :=
  match margin_length with
  | PyFloat _ => Raise (ValueError "margin_length must be a postive int")
  | PyInt margin_length =>
      if margin_length <? 0 then
        Raise (ValueError "margin_length must be a postive int")
      else
        Ok (list_mul [0] margin_length ++ [1] ++ list_mul [0] margin_length)
  end.

(** ** [random_string] *)

(** The generator behind [random.randint]: the values its calls are going
    to return, in order, and the number of calls made so far. *)
Record rng : Type := Rng {
  draws : nat -> Z;
  drawn : nat
}.

(** One call [random.randint(0, 2)]. *)
Definition randint_0_2 (g : rng) : Z * rng :=
  (draws g (drawn g), {| draws := draws g; drawn := S (drawn g) |}).

(** A loop over what is left of [range(length)] that appends one draw per
    iteration to [out]: the list comprehension of [random_string] and the
    first loop of the script. *)
Fixpoint randint_loop (is_ : list Z) (g : rng) (out : list Z) : list Z * rng :=
  match is_ with
  | [] => (out, g)
  | _ :: is' =>
      let '(x, g') := randint_0_2 g in
      randint_loop is' g' (out ++ [x])
  end.

Definition random_string (length : Z) (g : rng) : list Z * rng :=
  randint_loop (range length) g [].

(** ** The script [three_state_spaghetti.py] *)

(** [dict(pairs)] and [d[k]] for the script's table, whose values are the
    characters of the numeral. *)
Definition str_dict (pairs : list ((Z * Z) * string)) : gmap (Z * Z) string :=
  foldl (fun d kv => <[kv.1 := kv.2]> d) ∅ pairs.

Definition str_dict_get (d : gmap (Z * Z) string) (k : Z * Z) : result string :=
  match d !! k with
  | Some v => Ok v
  | None => Raise KeyError
  end.

(** The inner loop of the script, over what is left of
    [range(len(current_configuration))]; the modulus is the script's
    variable [length]. *)
Fixpoint script_for_i (lookup_table : gmap (Z * Z) string) (length : Z)
    (current_configuration : list Z) (is_ : list Z) (new_configuration : list Z)
    : result (list Z) :=
  match is_ with
  | [] => Ok new_configuration
  | i :: is' =>
      left <- py_index current_configuration ((i - 1) mod length) ;;
      self <- py_index current_configuration i ;;
      digit <- str_dict_get lookup_table (left, self) ;;
      out <- int_of_str digit ;;
      script_for_i lookup_table length current_configuration is' (new_configuration ++ [out])
  end.

(** The outer loop of the script, over what is left of [range(time)]. *)
Fixpoint script_for_t (lookup_table : gmap (Z * Z) string) (length : Z) (ts : list Z)
    (current_configuration : list Z) (spacetime_field : list (list Z))
    : result (list (list Z)) :=
  match ts with
  | [] => Ok spacetime_field
  | _ :: ts' =>
      new_configuration <-
        script_for_i lookup_table length current_configuration
          (range (Z.of_nat (List.length current_configuration))) [] ;;
      script_for_t lookup_table length ts' new_configuration
        (spacetime_field ++ [new_configuration])
  end.

(** The script as a function of its three user-defined variables and of
    the generator: the value of [spacetime_field] that it hands to the
    plot.  What it prints on the way is left out. *)
Definition three_state_spaghetti (rule_number length time : Z) (g : rng)
    : result (list (list Z)) :=
  let '(initial_condition, _) := randint_loop (range length) g [] in
  let n := rule_number in
  nums <- while_n (S (Z.to_nat n)) n [] ;;
  let in_ternary := String.concat "" (rev nums) in
  let ternary_length := Z.of_nat (String.length in_ternary) in
  let in_ternary :=
    if negb (ternary_length =? 9) then
      let padding := 9 - ternary_length in
      (str_mul "0" padding ++ in_ternary)%string
    else in_ternary in
  let lookup_table := str_dict (zip neighborhoods (reversed_str in_ternary)) in
  script_for_t lookup_table length (range time) initial_condition [initial_condition].

(** ** The run at the end of [three_state_unspaghetti.py] *)

(** [rule_110 = ECA(110, random_string(100)); rule_110.evolve(50)], with
    the three numbers as parameters: the engine handed to the plot. *)
Definition demo_run (rule_number length time_steps : Z) (g : rng) : result ECA.obj :=
  let '(initial_condition, _) := random_string length g in
  rule <- ECA.__init__ (PyInt rule_number) initial_condition ;;
  match ECA.evolve (PyInt time_steps) rule with
  | (rule', Ok _) => Ok rule'
  | (_, Raise e) => Raise e
  | (_, OutOfFuel) => OutOfFuel
  end.

(** ** Vocabulary of the further properties *)

(** The generator returns cell values, as [random.randint(0, 2)] does. *)
Definition randint_in_range (g : rng) : Prop := forall k, 0 <= draws g k <= 2.

(** The next [n] values of the generator. *)
Definition next_draws (g : rng) (n : nat) : list Z :=
  map (draws g) (seq (drawn g) n).

(** The engines a caller can obtain: built by [__init__], then evolved
    any number of times, with any step count and whether or not the call
    raised. *)
Inductive reachable : ECA.obj -> Prop :=
  | reachable_init rn ic s :
      ECA.__init__ rn ic = Ok s -> reachable s
  | reachable_evolve time_steps s s' outcome :
      reachable s -> ECA.evolve time_steps s = (s', outcome) -> reachable s'.

(** What holds of every engine a caller can obtain: it is well formed,
    its history starts with the initial condition and ends with the
    current configuration, and every row is a configuration of the
    lattice. *)
Definition consistent (s : ECA.obj) : Prop :=
  well_formed s /\
  ECA.self_length s = Z.of_nat (length (ECA.self_initial s)) /\
  head (ECA.self_spacetime s) = Some (ECA.self_initial s) /\
  last (ECA.self_spacetime s) = Some (ECA.self_current_configuration s) /\
  Forall (fun row => valid_config row /\ length row = length (ECA.self_initial s))
    (ECA.self_spacetime s).

(** * Properties *)

(** ** The ternary digits computed by [lookup_table] *)

Lemma while_n_digits fuel n nums :
  0 <= n -> (Z.to_nat n < fuel)%nat ->
  while_n fuel n nums = Ok (nums ++ map str (lsd_digits fuel n)).
Proof.
  revert n nums. induction fuel as [|fuel IH]; intros n nums Hn Hfuel; [lia|].
  cbn [while_n lsd_digits]. destruct (Z.eqb_spec n 0) as [->|Hne].
  - now rewrite app_nil_r.
  - assert (Hqr : Z.div_eucl n 3 = (n / 3, n mod 3)).
    { unfold Z.div, Z.modulo. now destruct (Z.div_eucl n 3). }
    rewrite Hqr. rewrite IH.
    + cbn [map]. now rewrite <- app_assoc.
    + apply Z.div_pos; lia.
    + assert (n / 3 < n) by (apply Z.div_lt; lia).
      assert (0 <= n / 3) by (apply Z.div_pos; lia). lia.
Qed.

Lemma lsd_digits_is_digit fuel n : Forall is_digit (lsd_digits fuel n).
Proof.
  revert n. induction fuel as [|fuel IH]; intros n; cbn [lsd_digits]; [constructor|].
  destruct (n =? 0); constructor; [|apply IH].
  unfold is_digit. pose proof (Z.mod_pos_bound n 3). lia.
Qed.

Lemma ternary_digit_0 k : ternary_digit 0 k = 0.
Proof. unfold ternary_digit. now rewrite Z.div_0_l, Z.mod_0_l by lia. Qed.

Lemma ternary_digit_S n k : 0 <= n -> ternary_digit n (S k) = ternary_digit (n / 3) k.
Proof.
  intros Hn. unfold ternary_digit.
  rewrite Nat2Z.inj_succ, Z.pow_succ_r by lia.
  rewrite Z.div_div by lia. reflexivity.
Qed.

(** Padded with zeros up to [k] places, the remainders are the [k] low
    ternary digits of [n]; no padding is cut when [n < 3 ^ k]. *)
Lemma lsd_digits_pad k : forall fuel n,
  0 <= n < 3 ^ Z.of_nat k -> (Z.to_nat n < fuel)%nat ->
  (length (lsd_digits fuel n) <= k)%nat /\
  lsd_digits fuel n ++ replicate (k - length (lsd_digits fuel n)) 0
  = map (ternary_digit n) (seq 0 k).
Proof.
  induction k as [|k IH]; intros fuel n Hn Hfuel.
  - assert (n = 0) as -> by (cbn in Hn; lia).
    destruct fuel; [lia|]. cbn. split; [lia|reflexivity].
  - destruct fuel as [|fuel]; [lia|]. cbn [lsd_digits].
    destruct (Z.eqb_spec n 0) as [->|Hne].
    + split; [cbn; lia|]. cbn [length app]. rewrite Nat.sub_0_r.
      clear. generalize 0%nat. induction (S k) as [|j IHj]; intros i; [reflexivity|].
      cbn [replicate seq map]. now rewrite ternary_digit_0, <- IHj.
    + assert (Hq : 0 <= n / 3 < 3 ^ Z.of_nat k).
      { rewrite Nat2Z.inj_succ, Z.pow_succ_r in Hn by lia.
        split; [apply Z.div_pos; lia|apply Z.div_lt_upper_bound; lia]. }
      assert (Hlt : n / 3 < n) by (apply Z.div_lt; lia).
      destruct (IH fuel (n / 3) Hq ltac:(lia)) as [Hlen Heq].
      split; [cbn [length]; lia|].
      cbn [length app seq map]. change (S k - S ?x)%nat with (k - x)%nat.
      rewrite Heq. f_equal.
      * unfold ternary_digit. now rewrite Z.pow_0_r, Z.div_1_r.
      * rewrite <- seq_shift, map_map. apply map_ext. intros i.
        symmetry. apply ternary_digit_S. lia.
Qed.

(** ** Strings of ternary digits *)

Lemma str_digit d : is_digit d -> str d = String (digit_ascii d) EmptyString.
Proof.
  unfold is_digit. intros Hd.
  assert (d = 0 \/ d = 1 \/ d = 2) as [->|[->| ->]] by lia; reflexivity.
Qed.

Lemma int_of_str_digit d : is_digit d -> int_of_str (str d) = Ok d.
Proof.
  unfold is_digit. intros Hd.
  assert (d = 0 \/ d = 1 \/ d = 2) as [->|[->| ->]] by lia; reflexivity.
Qed.

Lemma list_ascii_of_string_app (s1 s2 : string) :
  list_ascii_of_string (s1 ++ s2) = list_ascii_of_string s1 ++ list_ascii_of_string s2.
Proof. induction s1 as [|c s1 IH]; simpl; [reflexivity|now rewrite IH]. Qed.

Lemma string_length_list_ascii (s : string) :
  String.length s = length (list_ascii_of_string s).
Proof. induction s as [|c s IH]; simpl; [reflexivity|now rewrite IH]. Qed.

(** [''.join(l)], one string at a time. *)
Lemma join_cons (x : string) (xs : list string) :
  list_ascii_of_string (String.concat "" (x :: xs))
  = list_ascii_of_string x ++ list_ascii_of_string (String.concat "" xs).
Proof.
  destruct xs as [|y ys].
  - simpl. now rewrite app_nil_r.
  - change (String.concat "" (x :: y :: ys))
      with (x ++ ("" ++ String.concat "" (y :: ys)))%string.
    now rewrite list_ascii_of_string_app.
Qed.

Lemma join_digits ds :
  Forall is_digit ds ->
  list_ascii_of_string (String.concat "" (map str ds)) = map digit_ascii ds.
Proof.
  induction 1 as [|d ds Hd Hds IH]; [reflexivity|].
  cbn [map]. rewrite join_cons, IH, str_digit by assumption. reflexivity.
Qed.

Lemma str_mul_zeros k :
  list_ascii_of_string (str_mul "0" k) = replicate (Z.to_nat k) "0"%char.
Proof.
  unfold str_mul. induction (Z.to_nat k) as [|j IH]; [reflexivity|].
  cbn [replicate]. rewrite join_cons, IH. reflexivity.
Qed.

Lemma map_digit_string ds :
  Forall is_digit ds ->
  map (fun c => String c EmptyString) (map digit_ascii ds) = map str ds.
Proof.
  induction 1 as [|d ds Hd Hds IH]; [reflexivity|].
  cbn [map]. now rewrite IH, str_digit.
Qed.

Lemma rev_replicate {A : Type} (n : nat) (x : A) : rev (replicate n x) = replicate n x.
Proof.
  induction n as [|n IH]; [reflexivity|].
  cbn [replicate rev]. rewrite IH. clear IH.
  induction n as [|n IH]; [reflexivity|].
  cbn [replicate app]. now rewrite IH.
Qed.

Lemma map_replicate {A B : Type} (f : A -> B) (n : nat) (x : A) :
  map f (replicate n x) = replicate n (f x).
Proof. induction n as [|n IH]; [reflexivity|]. cbn [replicate map]. now rewrite IH. Qed.

(** Reading the padded numeral backwards gives the remainders in the
    order the loop produced them, followed by the padding. *)
Lemma reversed_padded ds k :
  Forall is_digit ds ->
  reversed_str (str_mul "0" k ++ String.concat "" (rev (map str ds)))
  = map str (ds ++ replicate (Z.to_nat k) 0).
Proof.
  intros Hds. unfold reversed_str.
  rewrite list_ascii_of_string_app, str_mul_zeros, <- map_rev.
  rewrite join_digits by now apply Forall_rev.
  rewrite rev_app_distr, map_rev, rev_involutive, map_app.
  rewrite map_digit_string by assumption.
  rewrite map_app, rev_replicate, !map_replicate. reflexivity.
Qed.

Lemma map_result_int_of_str ds :
  Forall is_digit ds -> map_result int_of_str (map str ds) = Ok ds.
Proof.
  induction 1 as [|d ds Hd Hds IH]; [reflexivity|].
  cbn [map map_result]. rewrite int_of_str_digit, IH by assumption. reflexivity.
Qed.

Lemma joined_length ds :
  Forall is_digit ds ->
  String.length (String.concat "" (rev (map str ds))) = length ds.
Proof.
  intros Hds. rewrite string_length_list_ascii, <- map_rev.
  rewrite join_digits by now apply Forall_rev.
  now rewrite length_map, length_rev.
Qed.

(** ** The table built by [lookup_table] *)

Lemma lookup_table_digits r :
  valid_rule r ->
  lookup_table (PyInt r) = Ok (dict (zip neighborhoods (rule_digits r))).
Proof.
  unfold valid_rule. intros Hr. unfold lookup_table.
  replace ((r <? 0) || (r >? 19682)) with false
    by (symmetry; apply orb_false_intro; lia).
  rewrite while_n_digits by lia. cbn [bind app].
  set (ds := lsd_digits (S (Z.to_nat r)) r).
  assert (Hds : Forall is_digit ds) by apply lsd_digits_is_digit.
  destruct (lsd_digits_pad 9 (S (Z.to_nat r)) r) as [Hlen Hpad];
    [change (3 ^ Z.of_nat 9) with 19683; lia|lia|]. fold ds in Hlen, Hpad.
  rewrite joined_length by assumption.
  set (joined := String.concat "" (rev (map str ds))).
  assert (Hin : (if negb (Z.of_nat (length ds) =? 9)
                 then (str_mul "0" (9 - Z.of_nat (length ds)) ++ joined)%string
                 else joined)
                = (str_mul "0" (9 - Z.of_nat (length ds)) ++ joined)%string).
  { destruct (Z.eqb_spec (Z.of_nat (length ds)) 9) as [->|_]; reflexivity. }
  rewrite Hin. subst joined. rewrite reversed_padded by assumption.
  replace (Z.to_nat (9 - Z.of_nat (length ds))) with (9 - length ds)%nat by lia.
  rewrite Hpad. change (map (ternary_digit r) (seq 0 9)) with (rule_digits r) in *.
  rewrite map_result_int_of_str; [reflexivity|].
  rewrite <- Hpad. apply Forall_app. split; [assumption|].
  apply Forall_forall. intros x Hx. apply elem_of_replicate in Hx.
  destruct Hx as [-> _]. unfold is_digit. lia.
Qed.

Lemma dict_zip_neighborhoods (outs : list Z) (a b : Z) :
  length outs = 9%nat -> is_digit a -> is_digit b ->
  dict (zip neighborhoods outs) !! (a, b) = outs !! neighborhood_index (a, b).
Proof.
  intros Hlen Ha Hb.
  do 9 (destruct outs as [|? outs]; [discriminate|]).
  destruct outs; [|discriminate]. clear Hlen.
  unfold is_digit in *. unfold neighborhood_index. cbn [fst snd].
  assert (Ha' : a = 0 \/ a = 1 \/ a = 2) by lia.
  assert (Hb' : b = 0 \/ b = 1 \/ b = 2) by lia.
  destruct Ha' as [->|[->| ->]], Hb' as [->|[->| ->]]; vm_compute; reflexivity.
Qed.

Lemma dict_zip_neighborhoods_None (outs : list Z) (k : Z * Z) :
  k ∉ neighborhoods -> dict (zip neighborhoods outs) !! k = None.
Proof.
  intros Hk. unfold dict.
  assert (Hgen : forall (l : list ((Z * Z) * Z)) (d : gmap (Z * Z) Z),
            d !! k = None -> k ∉ l.*1 ->
            foldl (fun d kv => <[kv.1 := kv.2]> d) d l !! k = None).
  { induction l as [|[k' v] l IH]; intros d Hd Hl; [assumption|].
    rewrite fmap_cons in Hl. apply not_elem_of_cons in Hl as [Hne Hl].
    cbn [foldl fst snd]. apply IH; [|assumption].
    rewrite lookup_insert_ne; [assumption|]. intros ->. now apply Hne. }
  apply Hgen; [apply lookup_empty|].
  intros Hin. apply Hk.
  apply list_elem_of_fmap in Hin as [[k' v] [-> Hin]].
  now apply elem_of_zip_l in Hin.
Qed.

Lemma rule_digits_length r : length (rule_digits r) = 9%nat.
Proof. reflexivity. Qed.

Lemma rule_digits_lookup r (i : nat) :
  (i < 9)%nat -> rule_digits r !! i = Some (ternary_digit r i).
Proof.
  intros Hi. unfold rule_digits.
  do 9 (destruct i as [|i]; [reflexivity|]). lia.
Qed.

(** Every neighborhood is mapped to the ternary digit of the rule number
    whose weight is the position of the neighborhood in canonical order. *)
Lemma lookup_table_lookup r d a b :
  valid_rule r -> lookup_table (PyInt r) = Ok d -> is_digit a -> is_digit b ->
  d !! (a, b) = Some (ternary_digit r (neighborhood_index (a, b))).
Proof.
  intros Hr Hd Ha Hb. rewrite lookup_table_digits in Hd by assumption.
  assert (d = dict (zip neighborhoods (rule_digits r))) as -> by congruence.
  rewrite dict_zip_neighborhoods by (assumption || reflexivity).
  apply rule_digits_lookup. unfold neighborhood_index, is_digit in *. cbn [fst snd]. lia.
Qed.

Lemma ternary_digit_is_digit r k : is_digit (ternary_digit r k).
Proof.
  unfold is_digit, ternary_digit.
  pose proof (Z.mod_pos_bound (r / 3 ^ Z.of_nat k) 3). lia.
Qed.

(** ** One sweep over the lattice *)

Lemma in_012_is_digit i : in_012 i = true <-> is_digit i.
Proof. unfold in_012, is_digit. lia. Qed.

Lemma forallb_in_012 c : forallb in_012 c = true <-> valid_config c.
Proof.
  unfold valid_config. rewrite forallb_forall, Forall_forall.
  setoid_rewrite in_012_is_digit. setoid_rewrite list_elem_of_In. reflexivity.
Qed.

Lemma lookup_table_total r d :
  valid_rule r -> lookup_table (PyInt r) = Ok d -> total_table d.
Proof.
  intros Hr Hd a b Ha Hb. eexists. split.
  - eapply lookup_table_lookup; eassumption.
  - apply ternary_digit_is_digit.
Qed.

Lemma py_index_lookup {A : Type} (l : list A) (j : Z) (x : A) :
  0 <= j -> l !! Z.to_nat j = Some x -> py_index l j = Ok x.
Proof.
  intros Hj Hx. unfold py_index.
  pose proof (lookup_lt_Some _ _ _ Hx) as Hlt.
  replace (j <? 0) with false by lia.
  replace ((0 <=? j) && (j <? Z.of_nat (length l))) with true by lia.
  now rewrite Hx.
Qed.

Lemma for_i_map_result lookup len cur is_ acc :
  for_i lookup len cur is_ acc
  = (ys <- map_result (next_cell lookup len cur) is_ ;; Ok (acc ++ ys)).
Proof.
  revert acc. induction is_ as [|i is_ IH]; intros acc; cbn [for_i map_result bind].
  - now rewrite app_nil_r.
  - unfold next_cell at 1.
    destruct (py_index cur ((i - 1) mod len)) as [left| |]; cbn [bind]; try reflexivity.
    destruct (py_index cur i) as [self| |]; cbn [bind]; try reflexivity.
    destruct (dict_get lookup (left, self)) as [out| |]; cbn [bind]; try reflexivity.
    rewrite IH. destruct (map_result _ is_) as [ys| |]; cbn [bind]; try reflexivity.
    now rewrite <- app_assoc.
Qed.

Lemma map_result_ok {A B : Type} (f : A -> result B) (g : A -> B) (l : list A) :
  Forall (fun x => f x = Ok (g x)) l -> map_result f l = Ok (map g l).
Proof.
  induction 1 as [|x l Hx Hl IH]; [reflexivity|].
  cbn [map_result map]. now rewrite Hx, IH.
Qed.

Lemma left_index_bounds (i len : nat) :
  (i < len)%nat ->
  0 <= (Z.of_nat i - 1) mod Z.of_nat len < Z.of_nat len.
Proof. intros Hi. apply Z.mod_pos_bound. lia. Qed.

Lemma rule_output_digit lookup cur i :
  total_table lookup -> valid_config cur -> (i < length cur)%nat ->
  exists left self v,
    cur !! Z.to_nat ((Z.of_nat i - 1) mod Z.of_nat (length cur)) = Some left /\
    cur !! i = Some self /\
    lookup !! (left, self) = Some v /\
    is_digit v /\ rule_output lookup cur i = Some v.
Proof.
  intros Htab Hcur Hi.
  pose proof (left_index_bounds i (length cur) Hi) as Hj.
  destruct (lookup_lt_is_Some_2 cur (Z.to_nat ((Z.of_nat i - 1) mod Z.of_nat (length cur))))
    as [left Hleft]; [lia|].
  destruct (lookup_lt_is_Some_2 cur i Hi) as [self Hself].
  destruct (Htab left self) as (v & Hv & Hdv).
  - eapply Forall_lookup_1; eassumption.
  - eapply Forall_lookup_1; eassumption.
  - exists left, self, v. split_and!; try assumption.
    unfold rule_output. rewrite Hleft. cbn. rewrite Hself. cbn. exact Hv.
Qed.

Lemma next_cell_rule_output lookup cur (i : nat) :
  total_table lookup -> valid_config cur -> (i < length cur)%nat ->
  exists v, next_cell lookup (Z.of_nat (length cur)) cur (Z.of_nat i) = Ok v /\
            rule_output lookup cur i = Some v /\ is_digit v.
Proof.
  intros Htab Hcur Hi.
  destruct (rule_output_digit lookup cur i Htab Hcur Hi)
    as (left & self & v & Hleft & Hself & Hv & Hdv & Hout).
  pose proof (left_index_bounds i (length cur) Hi) as Hj.
  exists v. split_and!; try assumption.
  unfold next_cell.
  rewrite (py_index_lookup cur _ left) by (lia || assumption). cbn [bind].
  rewrite (py_index_lookup cur (Z.of_nat i) self) by (lia || now rewrite Nat2Z.id).
  cbn [bind]. unfold dict_get. now rewrite Hv.
Qed.

Lemma for_i_sweep lookup cur :
  total_table lookup -> valid_config cur ->
  for_i lookup (Z.of_nat (length cur)) cur (range (Z.of_nat (length cur))) []
  = Ok (sweep lookup cur).
Proof.
  intros Htab Hcur. rewrite for_i_map_result.
  unfold range. rewrite Nat2Z.id.
  rewrite (map_result_ok _ (fun i => default 0 (rule_output lookup cur (Z.to_nat i)))).
  - cbn [bind app]. unfold sweep. rewrite map_map. f_equal.
    apply map_ext. intros i. now rewrite Nat2Z.id.
  - apply Forall_forall. intros x Hx.
    apply list_elem_of_In, in_map_iff in Hx as (i & <- & Hi).
    apply in_seq in Hi.
    destruct (next_cell_rule_output lookup cur i Htab Hcur) as (v & Hv & Hout & _); [lia|].
    now rewrite Hv, Nat2Z.id, Hout.
Qed.

Lemma sweep_length lookup cur : length (sweep lookup cur) = length cur.
Proof. unfold sweep. now rewrite length_map, length_seq. Qed.

Lemma sweep_lookup lookup cur i :
  total_table lookup -> valid_config cur -> (i < length cur)%nat ->
  sweep lookup cur !! i = rule_output lookup cur i.
Proof.
  intros Htab Hcur Hi. unfold sweep.
  destruct (rule_output_digit lookup cur i Htab Hcur Hi)
    as (_ & _ & v & _ & _ & _ & _ & Hout).
  rewrite Hout.
  change (map ?f ?l) with (f <$> l). rewrite list_lookup_fmap.
  rewrite lookup_seq_lt by assumption. cbn. now rewrite Hout.
Qed.

Lemma sweep_valid lookup cur :
  total_table lookup -> valid_config cur -> valid_config (sweep lookup cur).
Proof.
  intros Htab Hcur. apply Forall_lookup. intros i v Hv.
  assert (Hi : (i < length cur)%nat).
  { rewrite <- (sweep_length lookup). eapply lookup_lt_Some; eassumption. }
  rewrite sweep_lookup in Hv by assumption.
  destruct (rule_output_digit lookup cur i Htab Hcur Hi)
    as (_ & _ & v' & _ & _ & _ & Hdv & Hout).
  congruence.
Qed.

(** ** Engine states and the outer loop *)

Lemma range_length n : length (range n) = Z.to_nat n.
Proof. unfold range. now rewrite length_map, length_seq. Qed.

Lemma for_t_length ts ts' s :
  length ts = length ts' -> ECA.for_t ts s = ECA.for_t ts' s.
Proof.
  revert ts' s. induction ts as [|t ts IH]; intros [|t' ts'] s Hlen;
    try discriminate; [reflexivity|].
  cbn [ECA.for_t]. destruct (for_i _ _ _ _ _); try reflexivity.
  apply IH. now injection Hlen.
Qed.

Lemma for_t_app ts1 ts2 s :
  ECA.for_t (ts1 ++ ts2) s = ECA.and_then (ECA.for_t ts1) (ECA.for_t ts2) s.
Proof.
  revert s. induction ts1 as [|t ts1 IH]; intros s.
  - reflexivity.
  - unfold ECA.and_then in *. cbn [app ECA.for_t].
    destruct (for_i _ _ _ _ _); try reflexivity. apply IH.
Qed.

Lemma evolve_int n s :
  0 <= n -> ECA.evolve (PyInt n) s = ECA.for_t (range n) s.
Proof.
  intros Hn. unfold ECA.evolve, py_lt0, try_int, py_int.
  now replace (n <? 0) with false by lia.
Qed.

(** Two calls in a row amount to one call with the sum of the step
    counts, whatever the state and whether or not a step raises. *)
Lemma evolve_add n m s :
  0 <= n -> 0 <= m ->
  ECA.and_then (ECA.evolve (PyInt n)) (ECA.evolve (PyInt m)) s
  = ECA.evolve (PyInt (n + m)) s.
Proof.
  intros Hn Hm. rewrite evolve_int by lia.
  rewrite (for_t_length (range (n + m)) (range n ++ range m))
    by (rewrite length_app, !range_length; lia).
  rewrite for_t_app. unfold ECA.and_then.
  rewrite evolve_int by lia.
  destruct (ECA.for_t (range n) s) as [s' [[]| |]]; try reflexivity.
  now rewrite evolve_int.
Qed.

Lemma advance_well_formed s : well_formed s -> well_formed (advance s).
Proof.
  intros (Htab & Hcur & Hlen). unfold well_formed, advance. cbn.
  split_and!; [assumption|now apply sweep_valid|now rewrite sweep_length].
Qed.

Lemma for_t_cons_well_formed t ts s :
  well_formed s -> ECA.for_t (t :: ts) s = ECA.for_t ts (advance s).
Proof.
  intros (Htab & Hcur & Hlen). cbn [ECA.for_t].
  rewrite Hlen, for_i_sweep by assumption. rewrite <- Hlen. reflexivity.
Qed.

Lemma for_t_well_formed ts s :
  well_formed s -> ECA.for_t ts s = (Nat.iter (length ts) advance s, Ok tt).
Proof.
  revert s. induction ts as [|t ts IH]; intros s Hs; [reflexivity|].
  rewrite for_t_cons_well_formed, IH by (assumption || now apply advance_well_formed).
  cbn [length]. now rewrite Nat.iter_succ_r.
Qed.

Lemma iter_advance_well_formed k s :
  well_formed s -> well_formed (Nat.iter k advance s).
Proof.
  intros Hs. induction k as [|k IH]; [assumption|].
  cbn [Nat.iter]. now apply advance_well_formed.
Qed.

Lemma iter_advance_spacetime k s :
  ECA.self_spacetime (Nat.iter k advance s)
  = ECA.self_spacetime s
    ++ generations (ECA.self_lookup_table s) k (ECA.self_current_configuration s).
Proof.
  revert s. induction k as [|k IH]; intros s.
  - cbn. now rewrite app_nil_r.
  - rewrite Nat.iter_succ_r, IH. cbn. now rewrite <- app_assoc.
Qed.

Lemma iter_advance_fixed k s :
  ECA.self_lookup_table (Nat.iter k advance s) = ECA.self_lookup_table s /\
  ECA.self_initial (Nat.iter k advance s) = ECA.self_initial s /\
  ECA.self_length (Nat.iter k advance s) = ECA.self_length s.
Proof. induction k as [|k IH]; [easy|]. cbn [Nat.iter]. exact IH. Qed.

Lemma generations_length lookup k cur : length (generations lookup k cur) = k.
Proof.
  revert cur. induction k as [|k IH]; intros cur; [reflexivity|].
  cbn [generations length]. now rewrite IH.
Qed.

Lemma generations_row_length lookup k cur :
  Forall (fun row => length row = length cur) (generations lookup k cur).
Proof.
  revert cur. induction k as [|k IH]; intros cur; cbn [generations]; constructor.
  - apply sweep_length.
  - eapply Forall_impl; [apply IH|]. cbn. intros row ->. apply sweep_length.
Qed.

(** Evolution of a well-formed engine for a non-negative step count. *)
Lemma evolve_well_formed n s :
  well_formed s -> 0 <= n ->
  ECA.evolve (PyInt n) s = (Nat.iter (Z.to_nat n) advance s, Ok tt).
Proof.
  intros Hs Hn. rewrite evolve_int, for_t_well_formed by assumption.
  now rewrite range_length.
Qed.

(** [spacetime_field] runs the loop of [evolve] on local variables. *)
Lemma spacetime_field_for_t_evolve ts s :
  spacetime_field_for_t (ECA.self_lookup_table s) (ECA.self_length s) ts
    (ECA.self_current_configuration s) (ECA.self_spacetime s)
  = match ECA.for_t ts s with
    | (s', Ok _) => Ok (ECA.self_spacetime s')
    | (_, Raise e) => Raise e
    | (_, OutOfFuel) => OutOfFuel
    end.
Proof.
  revert s. induction ts as [|t ts IH]; intros s; [reflexivity|].
  cbn [spacetime_field_for_t ECA.for_t].
  destruct (for_i _ _ _ _ _) as [new| |]; cbn [bind]; try reflexivity.
  now rewrite <- IH.
Qed.

Lemma init_valid r ic :
  valid_rule r -> valid_config ic ->
  exists d, lookup_table (PyInt r) = Ok d /\
    ECA.__init__ (PyInt r) ic
    = Ok {| ECA.self_lookup_table := d;
            ECA.self_initial := ic;
            ECA.self_spacetime := [ic];
            ECA.self_current_configuration := ic;
            ECA.self_length := Z.of_nat (length ic) |}.
Proof.
  intros Hr Hic. exists (dict (zip neighborhoods (rule_digits r))).
  split; [now apply lookup_table_digits|].
  unfold ECA.__init__. apply forallb_in_012 in Hic. rewrite Hic. cbn [negb].
  now rewrite lookup_table_digits.
Qed.

(** ** Rule numbers and tables correspond one to one *)

Lemma rule_of_digits_bounds ds :
  Forall is_digit ds -> 0 <= rule_of_digits ds < 3 ^ Z.of_nat (length ds).
Proof.
  induction 1 as [|d ds Hd Hds IH]; [cbn; lia|].
  cbn [rule_of_digits foldr length]. fold (rule_of_digits ds).
  rewrite Nat2Z.inj_succ, Z.pow_succ_r by lia. unfold is_digit in Hd. lia.
Qed.

Lemma ternary_digit_rule_of_digits ds :
  Forall is_digit ds ->
  forall k d, ds !! k = Some d -> ternary_digit (rule_of_digits ds) k = d.
Proof.
  induction 1 as [|d0 ds Hd Hds IH]; intros k d Hk; [discriminate|].
  pose proof (rule_of_digits_bounds ds Hds) as Hb.
  cbn [rule_of_digits foldr]. fold (rule_of_digits ds). unfold is_digit in Hd.
  destruct k as [|k]; cbn in Hk.
  - injection Hk as <-. unfold ternary_digit. rewrite Z.pow_0_r, Z.div_1_r.
    rewrite (Z.mul_comm 3), Z.mod_add by lia. apply Z.mod_small. lia.
  - rewrite ternary_digit_S by lia.
    replace ((d0 + 3 * rule_of_digits ds) / 3) with (rule_of_digits ds).
    + now apply IH.
    + rewrite (Z.mul_comm 3), Z.div_add by lia.
      rewrite (Z.div_small d0 3) by lia. lia.
Qed.

Lemma rule_of_digits_ternary k : forall r,
  0 <= r < 3 ^ Z.of_nat k ->
  rule_of_digits (map (ternary_digit r) (seq 0 k)) = r.
Proof.
  induction k as [|k IH]; intros r Hr.
  - cbn in *. lia.
  - rewrite Nat2Z.inj_succ, Z.pow_succ_r in Hr by lia.
    cbn [seq map rule_of_digits foldr].
    rewrite <- seq_shift, map_map.
    rewrite (map_ext _ (ternary_digit (r / 3)))
      by (intros i; apply ternary_digit_S; lia).
    fold (rule_of_digits (map (ternary_digit (r / 3)) (seq 0 k))).
    rewrite IH by (split; [apply Z.div_pos; lia|apply Z.div_lt_upper_bound; lia]).
    unfold ternary_digit. rewrite Z.pow_0_r, Z.div_1_r.
    pose proof (Z.div_mod r 3). lia.
Qed.

Lemma rule_of_rule_digits r : valid_rule r -> rule_of_digits (rule_digits r) = r.
Proof.
  unfold valid_rule. intros Hr. apply rule_of_digits_ternary.
  change (3 ^ Z.of_nat 9) with 19683. lia.
Qed.

Lemma rule_digits_of_digits ds :
  length ds = 9%nat -> Forall is_digit ds -> rule_digits (rule_of_digits ds) = ds.
Proof.
  intros Hlen Hds. apply list_eq. intros i.
  destruct (ds !! i) as [d|] eqn:Hd.
  - rewrite rule_digits_lookup by (apply lookup_lt_Some in Hd; lia).
    f_equal. now apply ternary_digit_rule_of_digits.
  - apply lookup_ge_None in Hd. apply lookup_ge_None.
    rewrite rule_digits_length. lia.
Qed.

Lemma elem_of_neighborhoods (k : Z * Z) :
  k ∈ neighborhoods <-> is_digit k.1 /\ is_digit k.2.
Proof.
  destruct k as [a b]. unfold neighborhoods, is_digit. cbn [fst snd].
  rewrite !elem_of_cons, elem_of_nil. split.
  - intros H. repeat destruct H as [H|H]; try (injection H as -> ->; lia). contradiction.
  - intros [Ha Hb].
    assert (Ha' : a = 0 \/ a = 1 \/ a = 2) by lia.
    assert (Hb' : b = 0 \/ b = 1 \/ b = 2) by lia.
    destruct Ha' as [->|[->| ->]], Hb' as [->|[->| ->]]; tauto.
Qed.

Lemma NoDup_neighborhoods : NoDup neighborhoods.
Proof. apply (bool_decide_unpack _). vm_compute. exact I. Qed.

Lemma neighborhoods_lookup_index (k : Z * Z) :
  k ∈ neighborhoods -> neighborhoods !! neighborhood_index k = Some k.
Proof.
  unfold neighborhoods. rewrite !elem_of_cons, elem_of_nil.
  intros H. repeat destruct H as [H|H]; try (subst k; reflexivity). contradiction.
Qed.

(** A table is the dictionary of its own outputs when its keys are the
    nine neighborhoods. *)
Lemma dict_outputs_of (t : gmap (Z * Z) Z) :
  (forall k, is_Some (t !! k) <-> k ∈ neighborhoods) ->
  dict (zip neighborhoods (outputs_of t)) = t.
Proof.
  intros Hdom. apply map_eq. intros k.
  destruct (decide (k ∈ neighborhoods)) as [Hk|Hk].
  - destruct (proj2 (Hdom k) Hk) as [v Hv]. rewrite Hv.
    pose proof (proj1 (elem_of_neighborhoods k) Hk) as [Ha Hb].
    destruct k as [a b]. rewrite dict_zip_neighborhoods by (assumption || reflexivity).
    unfold outputs_of. change (map ?f ?l) with (f <$> l).
    rewrite list_lookup_fmap, neighborhoods_lookup_index by assumption.
    cbn. now rewrite Hv.
  - rewrite dict_zip_neighborhoods_None by assumption.
    symmetry. apply eq_None_not_Some. intros Hs. apply Hk, Hdom, Hs.
Qed.

Lemma outputs_of_dict ds :
  length ds = 9%nat -> outputs_of (dict (zip neighborhoods ds)) = ds.
Proof.
  intros Hlen.
  do 9 (destruct ds as [|? ds]; [discriminate|]).
  destruct ds; [|discriminate]. vm_compute. reflexivity.
Qed.

Lemma dict_zip_dom ds (k : Z * Z) :
  length ds = 9%nat ->
  is_Some (dict (zip neighborhoods ds) !! k) <-> k ∈ neighborhoods.
Proof.
  intros Hlen. split.
  - intros Hs. destruct (decide (k ∈ neighborhoods)) as [Hk|Hk]; [assumption|].
    rewrite dict_zip_neighborhoods_None in Hs by assumption. now destruct Hs.
  - intros Hk. pose proof (proj1 (elem_of_neighborhoods k) Hk) as [Ha Hb].
    destruct k as [a b]. rewrite dict_zip_neighborhoods by assumption.
    apply lookup_lt_is_Some. unfold neighborhood_index, is_digit in *.
    cbn [fst snd] in *. lia.
Qed.

(** ** Validation *)

Lemma lookup_table_ok_valid rn d :
  lookup_table rn = Ok d -> exists r, rn = PyInt r /\ valid_rule r.
Proof.
  destruct rn as [r|f]; [|discriminate]. unfold lookup_table.
  destruct ((r <? 0) || (r >? 19682)) eqn:Hguard; [discriminate|].
  intros _. exists r. split; [reflexivity|].
  apply orb_false_elim in Hguard. unfold valid_rule. lia.
Qed.

(** Whatever [__init__] returns is well formed, with the initial condition
    as its only generation. *)
Lemma init_ok rn ic s :
  ECA.__init__ rn ic = Ok s ->
  well_formed s /\ ECA.self_spacetime s = [ic] /\ ECA.self_current_configuration s = ic.
Proof.
  unfold ECA.__init__. destruct (forallb in_012 ic) eqn:Hic; [|discriminate].
  cbn [negb]. destruct (lookup_table rn) as [d| |] eqn:Hd; try discriminate.
  cbn [bind]. intros [= <-]. cbn.
  destruct (lookup_table_ok_valid rn d Hd) as (r & -> & Hr).
  unfold well_formed. cbn. split_and!; try reflexivity.
  - eapply lookup_table_total; eassumption.
  - now apply forallb_in_012.
Qed.

Lemma evolve_negative t s :
  py_lt0 t = true ->
  ECA.evolve t s = (s, Raise (ValueError "time_steps must be a non-negative integer")).
Proof. intros Ht. unfold ECA.evolve. now rewrite Ht. Qed.

Lemma spacetime_field_int rn ic n :
  0 <= n ->
  spacetime_field rn ic (PyInt n)
  = if negb (forallb in_012 ic) then
      Raise (ValueError "initial condition must be a list of 0s, 1s and 2s")
    else
      lookup <- lookup_table rn ;;
      spacetime_field_for_t lookup (Z.of_nat (length ic)) (range n) ic [ic].
Proof.
  intros Hn. unfold spacetime_field, py_lt0, try_int, py_int.
  now replace (n <? 0) with false by lia.
Qed.

(** The field computed for valid arguments: the initial condition
    followed by one generation per step. *)
Lemma spacetime_field_valid r ic n d :
  valid_config ic -> 0 <= n -> lookup_table (PyInt r) = Ok d ->
  spacetime_field (PyInt r) ic (PyInt n) = Ok (ic :: generations d (Z.to_nat n) ic).
Proof.
  intros Hic Hn Hd. rewrite spacetime_field_int by assumption.
  pose proof (proj2 (forallb_in_012 ic) Hic) as Hb. rewrite Hb, Hd. cbn [negb bind].
  set (s0 := {| ECA.self_lookup_table := d; ECA.self_initial := ic;
                ECA.self_spacetime := [ic]; ECA.self_current_configuration := ic;
                ECA.self_length := Z.of_nat (length ic) |}).
  assert (Hs0 : well_formed s0).
  { destruct (lookup_table_ok_valid _ _ Hd) as (r' & [= <-] & Hr).
    unfold well_formed. cbn. split_and!; [|assumption|reflexivity].
    eapply lookup_table_total; eassumption. }
  pose proof (spacetime_field_for_t_evolve (range n) s0) as Hloop. cbn in Hloop.
  rewrite Hloop, for_t_well_formed, iter_advance_spacetime, range_length by assumption.
  reflexivity.
Qed.

Lemma keys_permutation_iff (t : gmap (Z * Z) Z) :
  (map_to_list t).*1 ≡ₚ neighborhoods <->
  (forall k, is_Some (t !! k) <-> k ∈ neighborhoods).
Proof.
  assert (Hkeys : forall k, k ∈ (map_to_list t).*1 <-> is_Some (t !! k)).
  { intros k. rewrite list_elem_of_fmap. split.
    - intros ([k' v] & -> & Hin). apply elem_of_map_to_list in Hin. now exists v.
    - intros [v Hv]. exists (k, v). split; [reflexivity|]. now apply elem_of_map_to_list. }
  split.
  - intros Hperm k. rewrite <- Hkeys. now rewrite Hperm.
  - intros Hdom. apply NoDup_Permutation.
    + apply NoDup_fst_map_to_list.
    + apply NoDup_neighborhoods.
    + intros k. now rewrite Hkeys.
Qed.

Lemma outputs_of_digits (t : gmap (Z * Z) Z) :
  (forall k v, t !! k = Some v -> is_digit v) -> Forall is_digit (outputs_of t).
Proof.
  intros Hval. unfold outputs_of. apply Forall_forall. intros x Hx.
  apply list_elem_of_In, in_map_iff in Hx as (k & <- & _).
  destruct (t !! k) as [v|] eqn:Hv; cbn; [eauto|]. unfold is_digit. lia.
Qed.

(** * The claims *)

(** C1. Rule number 22 evolved for 2 steps from [0,0,2,0,1,0] gives the
    history whose generation 1 is [1,1,2,0,1,0] and whose generation 2 is
    [1,0,0,0,1,0], by [spacetime_field] and by the class [ECA] alike. *)
Theorem rule22_known_trace :
  spacetime_field (PyInt 22) [0;0;2;0;1;0] (PyInt 2)
    = Ok [[0;0;2;0;1;0]; [1;1;2;0;1;0]; [1;0;0;0;1;0]] /\
  ECA.__init__ (PyInt 22) [0;0;2;0;1;0] = Ok (engine22 [[0;0;2;0;1;0]] [0;0;2;0;1;0]) /\
  ECA.evolve (PyInt 2) (engine22 [[0;0;2;0;1;0]] [0;0;2;0;1;0])
    = (engine22 [[0;0;2;0;1;0]; [1;1;2;0;1;0]; [1;0;0;0;1;0]] [1;0;0;0;1;0], Ok tt).
Proof. split_and!; vm_compute; reflexivity. Qed.

(** C2. The table of rule 255 maps the neighborhoods, in canonical order,
    to [0,1,1,0,0,1,0,0,0]; rule 9841 maps all nine to 1 and rule 19682
    maps all nine to 2. *)
Theorem known_rule_tables :
  (exists lt, lookup_table (PyInt 255) = Ok lt /\
     map (fun k => lt !! k) neighborhoods = map Some [0; 1; 1; 0; 0; 1; 0; 0; 0]) /\
  (exists lt, lookup_table (PyInt 9841) = Ok lt /\
     map (fun k => lt !! k) neighborhoods = map Some [1; 1; 1; 1; 1; 1; 1; 1; 1]) /\
  (exists lt, lookup_table (PyInt 19682) = Ok lt /\
     map (fun k => lt !! k) neighborhoods = map Some [2; 2; 2; 2; 2; 2; 2; 2; 2]).
Proof.
  split_and!.
  - exists (dict (zip neighborhoods [0; 1; 1; 0; 0; 1; 0; 0; 0])).
    split; vm_compute; reflexivity.
  - exists (dict (zip neighborhoods [1; 1; 1; 1; 1; 1; 1; 1; 1])).
    split; vm_compute; reflexivity.
  - exists (dict (zip neighborhoods [2; 2; 2; 2; 2; 2; 2; 2; 2])).
    split; vm_compute; reflexivity.
Qed.

(** C3. One step of a non-empty valid configuration of length L puts at
    every position i < L the table's output for the neighborhood
    (previous[(i-1) mod L], previous[i]); the left neighbor of position 0
    is the last cell of the previous configuration; the new configuration
    is determined by the table and the previous configuration alone. *)
Theorem evolve_step_rule_output (r : Z) (s : ECA.obj) :
  valid_rule r ->
  lookup_table (PyInt r) = Ok (ECA.self_lookup_table s) ->
  valid_config (ECA.self_current_configuration s) ->
  ECA.self_current_configuration s <> [] ->
  ECA.self_length s = Z.of_nat (length (ECA.self_current_configuration s)) ->
  let previous := ECA.self_current_configuration s in
  let lookup := ECA.self_lookup_table s in
  exists new,
    ECA.evolve (PyInt 1) s
      = ({| ECA.self_lookup_table := lookup;
            ECA.self_initial := ECA.self_initial s;
            ECA.self_spacetime := ECA.self_spacetime s ++ [new];
            ECA.self_current_configuration := new;
            ECA.self_length := ECA.self_length s |}, Ok tt) /\
    spacetime_field (PyInt r) previous (PyInt 1) = Ok [previous; new] /\
    length new = length previous /\
    (forall i, (i < length previous)%nat ->
       exists left self out,
         previous !! Z.to_nat ((Z.of_nat i - 1) mod Z.of_nat (length previous)) = Some left /\
         previous !! i = Some self /\
         lookup !! (left, self) = Some out /\
         new !! i = Some out) /\
    (exists left self out,
       last previous = Some left /\ head previous = Some self /\
       lookup !! (left, self) = Some out /\ new !! 0%nat = Some out).
Proof.
  intros Hr Hd Hcur Hne Hlen previous lookup.
  assert (Htab : total_table lookup) by (eapply lookup_table_total; eassumption).
  assert (Hs : well_formed s) by (unfold well_formed; auto).
  exists (sweep lookup previous). split_and!.
  - rewrite evolve_well_formed by (assumption || lia). reflexivity.
  - erewrite spacetime_field_valid by (eassumption || lia). reflexivity.
  - apply sweep_length.
  - intros i Hi.
    destruct (rule_output_digit lookup previous i Htab Hcur Hi)
      as (left & self & v & Hleft & Hself & Hv & _ & Hout).
    exists left, self, v. split_and!; try assumption.
    now rewrite sweep_lookup.
  - assert (Hpos : (0 < length previous)%nat).
    { destruct (Nat.eq_dec (length previous) 0%nat) as [Hz|Hz]; [|lia].
      now apply nil_length_inv in Hz. }
    destruct (rule_output_digit lookup previous 0 Htab Hcur Hpos)
      as (left & self & v & Hleft & Hself & Hv & _ & Hout).
    exists left, self, v. split_and!; try assumption.
    + rewrite last_lookup, <- Hleft. f_equal.
      change (Z.of_nat 0 - 1) with (-1).
      replace (-1) with (Z.of_nat (length previous) - 1 + (-1) * Z.of_nat (length previous)) by lia.
      rewrite Z.mod_add, Z.mod_small by lia. lia.
    + now rewrite head_lookup.
    + now rewrite sweep_lookup.
Qed.

Lemma evolve_step_rule_output_witness :
  exists new,
    ECA.evolve (PyInt 1) (engine22 [initial22] initial22)
      = (engine22 ([initial22] ++ [new]) new, Ok tt) /\
    new !! 0%nat = Some 1.
Proof.
  destruct (evolve_step_rule_output 22 (engine22 [initial22] initial22))
    as (new & Hev & _ & _ & _ & (left & self & out & Hl & Hs & Ho & Hnew)).
  - unfold valid_rule. lia.
  - vm_compute. reflexivity.
  - repeat constructor; unfold is_digit; lia.
  - discriminate.
  - reflexivity.
  - exists new. split; [exact Hev|].
    cbn in Hl, Hs. injection Hl as <-. injection Hs as <-.
    rewrite Hnew, <- Ho. reflexivity.
Defined.

(** C4, as the code has it.  An empty initial condition with the valid
    rule number 22 is accepted: [__init__] returns an engine whose history
    is the single empty row, and [spacetime_field] returns that history;
    neither raises. *)
Lemma empty_lattice_accepted :
  ECA.__init__ (PyInt 22) []
    = Ok {| ECA.self_lookup_table := rule22_table;
            ECA.self_initial := [];
            ECA.self_spacetime := [[]];
            ECA.self_current_configuration := [];
            ECA.self_length := 0 |} /\
  spacetime_field (PyInt 22) [] (PyInt 0) = Ok [[]] /\
  (forall e, ECA.__init__ (PyInt 22) [] <> Raise e) /\
  (forall e, spacetime_field (PyInt 22) [] (PyInt 0) <> Raise e).
Proof. split_and!; try (vm_compute; reflexivity); intros e; vm_compute; discriminate. Qed.

(** C4, amended.  For every valid rule number, constructing an engine on
    the empty initial condition succeeds with the empty configuration as
    current configuration and a history of one empty row; every evolution
    step appends one more empty row, and [spacetime_field] returns the same
    history. *)
Theorem empty_lattice_evolution (r n : Z) :
  valid_rule r -> 0 <= n ->
  exists d,
    lookup_table (PyInt r) = Ok d /\
    ECA.__init__ (PyInt r) []
      = Ok {| ECA.self_lookup_table := d;
              ECA.self_initial := [];
              ECA.self_spacetime := [[]];
              ECA.self_current_configuration := [];
              ECA.self_length := 0 |} /\
    ECA.evolve (PyInt n)
        {| ECA.self_lookup_table := d;
           ECA.self_initial := [];
           ECA.self_spacetime := [[]];
           ECA.self_current_configuration := [];
           ECA.self_length := 0 |}
      = ({| ECA.self_lookup_table := d;
            ECA.self_initial := [];
            ECA.self_spacetime := replicate (S (Z.to_nat n)) [];
            ECA.self_current_configuration := [];
            ECA.self_length := 0 |}, Ok tt) /\
    spacetime_field (PyInt r) [] (PyInt n) = Ok (replicate (S (Z.to_nat n)) []).
Proof.
  intros Hr Hn.
  destruct (init_valid r [] Hr) as (d & Hd & Hinit); [constructor|].
  exists d. split_and!; [assumption|exact Hinit| |].
  - rewrite evolve_int by assumption. rewrite <- range_length.
    assert (Hloop : forall ts j,
      ECA.for_t ts
        {| ECA.self_lookup_table := d;
           ECA.self_initial := [];
           ECA.self_spacetime := replicate j [];
           ECA.self_current_configuration := [];
           ECA.self_length := 0 |}
      = ({| ECA.self_lookup_table := d;
            ECA.self_initial := [];
            ECA.self_spacetime := replicate (j + length ts) [];
            ECA.self_current_configuration := [];
            ECA.self_length := 0 |}, Ok tt)).
    { induction ts as [|t ts IH]; intros j.
      - cbn [length ECA.for_t]. now rewrite Nat.add_0_r.
      - cbn [ECA.for_t ECA.self_length ECA.self_lookup_table
             ECA.self_current_configuration ECA.self_spacetime ECA.self_initial].
        change (range 0) with (@nil Z). cbn [for_i].
        replace (replicate j [] ++ [[]]) with (replicate (S j) (@nil Z))
          by (now rewrite replicate_S_end).
        rewrite IH. cbn [length]. now rewrite Nat.add_succ_r. }
    exact (Hloop (range n) 1%nat).
  - erewrite spacetime_field_valid by (eassumption || constructor).
    f_equal. cbn [replicate]. f_equal.
    induction (Z.to_nat n) as [|k IH]; [reflexivity|].
    cbn [generations replicate]. change (sweep d []) with (@nil Z). now rewrite IH.
Qed.

Lemma empty_lattice_evolution_witness :
  spacetime_field (PyInt 22) [] (PyInt 2) = Ok [[]; []; []].
Proof.
  destruct (empty_lattice_evolution 22 2) as (d & _ & _ & _ & Hfield).
  - unfold valid_rule. lia.
  - lia.
  - exact Hfield.
Defined.

(** C5, as the code has it.  The step count [2.5] is not rejected: [evolve]
    and [spacetime_field] convert it to 2 and run two steps to the end. *)
Lemma non_integral_steps_accepted :
  ECA.evolve (PyFloat float_2_5) (engine22 [initial22] initial22)
    = (engine22 [initial22; [1;1;2;0;1;0]; [1;0;0;0;1;0]] [1;0;0;0;1;0], Ok tt) /\
  spacetime_field (PyInt 22) initial22 (PyFloat float_2_5)
    = Ok [initial22; [1;1;2;0;1;0]; [1;0;0;0;1;0]].
Proof. split; vm_compute; reflexivity. Qed.

(** C5, amended.  A finite, non-negative float step count (2.5, for one)
    is converted by [int], which drops its fractional part: [evolve] and
    [spacetime_field] behave as on that integer, and on a well-formed
    engine the evolution of that many steps completes.  A negative float
    is rejected with the error before any evolution. *)
Theorem float_steps_truncated (s : ECA.obj) (m : positive) (e : Z) :
  well_formed s ->
  let k := if 0 <=? e then Z.pos m * 2 ^ e else Z.pos m / 2 ^ (- e) in
  0 <= k /\
  (e < 0 -> k * 2 ^ (- e) <= Z.pos m < (k + 1) * 2 ^ (- e)) /\
  ECA.evolve (PyFloat (S754_finite false m e)) s = ECA.evolve (PyInt k) s /\
  ECA.evolve (PyFloat (S754_finite false m e)) s
    = (Nat.iter (Z.to_nat k) advance s, Ok tt) /\
  (forall rn ic, spacetime_field rn ic (PyFloat (S754_finite false m e))
                 = spacetime_field rn ic (PyInt k)) /\
  ECA.evolve (PyFloat (S754_finite true m e)) s
    = (s, Raise (ValueError "time_steps must be a non-negative integer")).
Proof.
  intros Hs k.
  assert (Hk : 0 <= k).
  { subst k. destruct (Z.leb_spec 0 e).
    - apply Z.mul_nonneg_nonneg; [lia|]. apply Z.pow_nonneg. lia.
    - apply Z.div_pos; [lia|]. apply Z.pow_pos_nonneg; lia. }
  assert (Hev : ECA.evolve (PyFloat (S754_finite false m e)) s = ECA.evolve (PyInt k) s).
  { unfold ECA.evolve, try_int, py_int, py_lt0. cbn.
    fold k. now replace (k <? 0) with false by lia. }
  split_and!.
  - exact Hk.
  - intros He. subst k. replace (0 <=? e) with false by lia.
    assert (Hp : 0 < 2 ^ (- e)) by (apply Z.pow_pos_nonneg; lia).
    pose proof (Z.div_mod (Z.pos m) (2 ^ (- e)) ltac:(lia)) as Hdm.
    pose proof (Z.mod_pos_bound (Z.pos m) (2 ^ (- e)) Hp) as Hmb. nia.
  - exact Hev.
  - rewrite Hev. now apply evolve_well_formed.
  - intros rn ic. unfold spacetime_field, try_int, py_int, py_lt0. cbn.
    fold k. now replace (k <? 0) with false by lia.
  - now apply evolve_negative.
Qed.

Lemma float_steps_truncated_witness :
  ECA.evolve (PyFloat float_2_5) (engine22 [initial22] initial22)
  = ECA.evolve (PyInt 2) (engine22 [initial22] initial22).
Proof.
  refine (proj1 (proj2 (proj2
    (float_steps_truncated (engine22 [initial22] initial22) 5629499534213120 (-51) _)))).
  unfold well_formed. cbn. split_and!.
  - apply (lookup_table_total 22); [unfold valid_rule; lia|vm_compute; reflexivity].
  - repeat constructor; unfold is_digit; lia.
  - reflexivity.
Defined.

(** C6, as the code has it.  From the rule-22 engine that has already
    evolved one step (two generations in its history), [evolve(1)] then
    [evolve(1)] leaves four generations, not 1 + 1 + 1. *)
Lemma history_counts_earlier_generations :
  ECA.evolve (PyInt 1) (engine22 [initial22] initial22)
    = (engine22 [initial22; [1;1;2;0;1;0]] [1;1;2;0;1;0], Ok tt) /\
  ECA.and_then (ECA.evolve (PyInt 1)) (ECA.evolve (PyInt 1))
      (engine22 [initial22; [1;1;2;0;1;0]] [1;1;2;0;1;0])
    = (engine22 [initial22; [1;1;2;0;1;0]; [1;0;0;0;1;0]; [1;0;1;1;1;0]] [1;0;1;1;1;0],
       Ok tt) /\
  length [initial22; [1;1;2;0;1;0]; [1;0;0;0;1;0]; [1;0;1;1;1;0]] <> Z.to_nat (1 + 1 + 1).
Proof. split_and!; [vm_compute; reflexivity..|cbn; lia]. Qed.

(** C6, amended.  [evolve(0)] leaves every engine state unchanged, and for
    non-negative n and m, [evolve(n)] then [evolve(m)] ends in the same
    state (same current configuration, same history) as one [evolve(n+m)]
    from the same starting state; on a well-formed engine all three calls
    complete and the history has h + n + m generations, h being its length
    before the calls, hence 1 + n + m on a newly constructed engine. *)
Theorem evolve_additive (s : ECA.obj) (n m : Z) :
  0 <= n -> 0 <= m ->
  ECA.evolve (PyInt 0) s = (s, Ok tt) /\
  ECA.and_then (ECA.evolve (PyInt n)) (ECA.evolve (PyInt m)) s
    = ECA.evolve (PyInt (n + m)) s /\
  (well_formed s ->
   exists s1 s2,
     ECA.evolve (PyInt n) s = (s1, Ok tt) /\
     ECA.evolve (PyInt m) s1 = (s2, Ok tt) /\
     ECA.evolve (PyInt (n + m)) s = (s2, Ok tt) /\
     Z.of_nat (length (ECA.self_spacetime s2))
       = Z.of_nat (length (ECA.self_spacetime s)) + n + m /\
     (forall rn ic, ECA.__init__ rn ic = Ok s ->
        Z.of_nat (length (ECA.self_spacetime s2)) = 1 + n + m)).
Proof.
  intros Hn Hm. split_and!.
  - reflexivity.
  - now apply evolve_add.
  - intros Hs.
    pose proof (evolve_add n m s Hn Hm) as Hadd. unfold ECA.and_then in Hadd.
    rewrite (evolve_well_formed n s) in Hadd by assumption.
    exists (Nat.iter (Z.to_nat n) advance s),
           (Nat.iter (Z.to_nat (n + m)) advance s).
    assert (Hlen : Z.of_nat (length (ECA.self_spacetime (Nat.iter (Z.to_nat (n + m)) advance s)))
                   = Z.of_nat (length (ECA.self_spacetime s)) + n + m).
    { rewrite iter_advance_spacetime, length_app, generations_length. lia. }
    split_and!.
    + now apply evolve_well_formed.
    + rewrite Hadd. apply evolve_well_formed; [assumption|lia].
    + apply evolve_well_formed; [assumption|lia].
    + exact Hlen.
    + intros rn ic Hinit. apply init_ok in Hinit as (_ & Hst & _).
      rewrite Hlen, Hst. reflexivity.
Qed.

Lemma engine22_well_formed history current :
  valid_config current -> length current = 6%nat -> well_formed (engine22 history current).
Proof.
  intros Hcur Hlen. unfold well_formed. cbn. split_and!.
  - apply (lookup_table_total 22); [unfold valid_rule; lia|vm_compute; reflexivity].
  - exact Hcur.
  - now rewrite Hlen.
Qed.

Lemma evolve_additive_witness :
  ECA.and_then (ECA.evolve (PyInt 1)) (ECA.evolve (PyInt 1)) (engine22 [initial22] initial22)
    = ECA.evolve (PyInt (1 + 1)) (engine22 [initial22] initial22) /\
  exists s2,
    ECA.evolve (PyInt (1 + 1)) (engine22 [initial22] initial22) = (s2, Ok tt) /\
    Z.of_nat (length (ECA.self_spacetime s2)) = 1 + 1 + 1.
Proof.
  destruct (evolve_additive (engine22 [initial22] initial22) 1 1) as (_ & Hadd & Hwf);
    [lia|lia|].
  split; [exact Hadd|].
  destruct Hwf as (s1 & s2 & _ & _ & Hsum & _ & Hfresh).
  - apply engine22_well_formed; [|reflexivity].
    repeat constructor; unfold is_digit; lia.
  - exists s2. split; [exact Hsum|].
    apply (Hfresh (PyInt 22) initial22). vm_compute. reflexivity.
Defined.

(** C7. For every negative step count [evolve] raises its ValueError and
    leaves the engine, current configuration and history included, exactly
    as it was. *)
Theorem evolve_negative_steps (s : ECA.obj) (n : Z) :
  n < 0 ->
  ECA.evolve (PyInt n) s
  = (s, Raise (ValueError "time_steps must be a non-negative integer")).
Proof. intros Hn. apply evolve_negative. unfold py_lt0. lia. Qed.

Lemma evolve_negative_steps_witness :
  ECA.evolve (PyInt (-1)) (engine22 [initial22] initial22)
  = (engine22 [initial22] initial22,
     Raise (ValueError "time_steps must be a non-negative integer")).
Proof. apply (evolve_negative_steps (engine22 [initial22] initial22) (-1)). lia. Defined.

(** C8. For every valid rule number the table has the nine canonical
    neighborhoods as its keys, each once, with cell values as outputs;
    building it again gives the same table; two valid rule numbers with
    the same table are equal; and every table on the nine neighborhoods
    with cell values as outputs is the table of a valid rule number. *)
Theorem lookup_table_bijection :
  (forall r, valid_rule r ->
     exists d,
       lookup_table (PyInt r) = Ok d /\
       (map_to_list d).*1 ≡ₚ neighborhoods /\
       (forall k v, d !! k = Some v -> is_digit v) /\
       (forall d', lookup_table (PyInt r) = Ok d' -> d' = d) /\
       (forall r', valid_rule r' -> lookup_table (PyInt r') = Ok d -> r' = r)) /\
  (forall t : gmap (Z * Z) Z,
     (map_to_list t).*1 ≡ₚ neighborhoods ->
     (forall k v, t !! k = Some v -> is_digit v) ->
     exists r, valid_rule r /\ lookup_table (PyInt r) = Ok t).
Proof.
  split.
  - intros r Hr. exists (dict (zip neighborhoods (rule_digits r))).
    pose proof (lookup_table_digits r Hr) as Hd.
    split_and!.
    + exact Hd.
    + apply keys_permutation_iff. intros k. now apply dict_zip_dom.
    + intros [a b] v Hv.
      assert (Hk : (a, b) ∈ neighborhoods).
      { apply (dict_zip_dom (rule_digits r)); [reflexivity|]. now exists v. }
      apply elem_of_neighborhoods in Hk as [Ha Hb]. cbn [fst snd] in *.
      rewrite (lookup_table_lookup r _ a b Hr Hd Ha Hb) in Hv.
      injection Hv as <-. apply ternary_digit_is_digit.
    + intros d' Hd'. congruence.
    + intros r' Hr' Hd'. rewrite lookup_table_digits in Hd' by assumption.
      assert (Heq : dict (zip neighborhoods (rule_digits r'))
                    = dict (zip neighborhoods (rule_digits r))) by congruence.
      apply (f_equal outputs_of) in Heq.
      rewrite !outputs_of_dict in Heq by reflexivity.
      rewrite <- (rule_of_rule_digits r), <- (rule_of_rule_digits r') by assumption.
      now rewrite Heq.
  - intros t Hkeys Hval.
    pose proof (proj1 (keys_permutation_iff t) Hkeys) as Hdom.
    pose proof (outputs_of_digits t Hval) as Hds.
    assert (Hlen : length (outputs_of t) = 9%nat) by reflexivity.
    exists (rule_of_digits (outputs_of t)).
    assert (Hr : valid_rule (rule_of_digits (outputs_of t))).
    { pose proof (rule_of_digits_bounds _ Hds) as Hb. rewrite Hlen in Hb.
      change (3 ^ Z.of_nat 9) with 19683 in Hb. unfold valid_rule. lia. }
    split; [exact Hr|].
    rewrite lookup_table_digits by assumption.
    rewrite rule_digits_of_digits by assumption.
    now rewrite dict_outputs_of.
Qed.

Lemma lookup_table_bijection_witness :
  (exists d, lookup_table (PyInt 255) = Ok d /\ (map_to_list d).*1 ≡ₚ neighborhoods) /\
  (exists r, valid_rule r /\ lookup_table (PyInt r) = Ok rule22_table).
Proof.
  split.
  - destruct (proj1 lookup_table_bijection 255) as (d & Hd & Hkeys & _).
    + unfold valid_rule. lia.
    + exists d. split; assumption.
  - apply (proj2 lookup_table_bijection rule22_table).
    + apply keys_permutation_iff. intros k.
      apply (dict_zip_dom [1; 1; 2; 0; 0; 0; 0; 0; 0]). reflexivity.
    + intros k v Hv.
      assert (Hin : v ∈ (map_to_list rule22_table).*2).
      { apply list_elem_of_fmap. exists (k, v). split; [reflexivity|].
        now apply elem_of_map_to_list. }
      revert Hin. vm_compute (map_to_list rule22_table).*2.
      rewrite !elem_of_cons, elem_of_nil. unfold is_digit. lia.
Defined.

(** C9. For a valid rule number, a valid initial condition and a
    non-negative step count, [spacetime_field] returns a field, with one
    row per step after the initial one, in which every row has the length
    of the initial condition; the history of an [ECA] engine evolved for
    that many steps has the same property. *)
Theorem length_invariance (r : Z) (ic : list Z) (n : Z) :
  valid_rule r -> valid_config ic -> ic <> [] -> 0 <= n ->
  (exists field,
     spacetime_field (PyInt r) ic (PyInt n) = Ok field /\
     length field = S (Z.to_nat n) /\
     Forall (fun row => length row = length ic) field) /\
  (exists s s',
     ECA.__init__ (PyInt r) ic = Ok s /\
     ECA.evolve (PyInt n) s = (s', Ok tt) /\
     length (ECA.self_spacetime s') = S (Z.to_nat n) /\
     Forall (fun row => length row = length ic) (ECA.self_spacetime s')).
Proof.
  intros Hr Hic _ Hn.
  destruct (init_valid r ic Hr Hic) as (d & Hd & Hinit).
  split.
  - exists (ic :: generations d (Z.to_nat n) ic). split_and!.
    + now apply spacetime_field_valid.
    + cbn [length]. now rewrite generations_length.
    + constructor; [reflexivity|apply generations_row_length].
  - eexists. eexists. split; [exact Hinit|].
    pose proof (init_ok _ _ _ Hinit) as (Hs & _ & _).
    rewrite evolve_well_formed by assumption.
    split; [reflexivity|].
    rewrite iter_advance_spacetime. cbn. split.
    + now rewrite generations_length.
    + constructor; [reflexivity|apply generations_row_length].
Qed.

Lemma length_invariance_witness :
  exists field,
    spacetime_field (PyInt 22) initial22 (PyInt 2) = Ok field /\
    length field = 3%nat /\
    Forall (fun row => length row = 6%nat) field.
Proof.
  refine (proj1 (length_invariance 22 initial22 2 _ _ _ _)).
  - unfold valid_rule. lia.
  - repeat constructor; unfold is_digit; lia.
  - discriminate.
  - lia.
Defined.

(** C10. For a valid rule number, a valid initial condition and a
    non-negative integer step count, the engine built by [ECA] and evolved
    for that many steps holds in [spacetime] exactly the field that
    [spacetime_field] returns for the same arguments. *)
Theorem spacetime_field_agrees_with_ECA (r : Z) (ic : list Z) (n : Z) :
  valid_rule r -> valid_config ic -> 0 <= n ->
  exists s s',
    ECA.__init__ (PyInt r) ic = Ok s /\
    ECA.evolve (PyInt n) s = (s', Ok tt) /\
    spacetime_field (PyInt r) ic (PyInt n) = Ok (ECA.self_spacetime s') /\
    (forall t, ECA.self_spacetime s' !! t
               = match spacetime_field (PyInt r) ic (PyInt n) with
                 | Ok field => field !! t
                 | _ => None
                 end).
Proof.
  intros Hr Hic Hn.
  destruct (init_valid r ic Hr Hic) as (d & Hd & Hinit).
  eexists. eexists. split; [exact Hinit|].
  pose proof (init_ok _ _ _ Hinit) as (Hs & _ & _).
  rewrite evolve_well_formed by assumption.
  split; [reflexivity|].
  rewrite (spacetime_field_valid r ic n d) by assumption.
  rewrite iter_advance_spacetime. cbn. split; reflexivity.
Qed.

Lemma spacetime_field_agrees_with_ECA_witness :
  exists s s',
    ECA.__init__ (PyInt 22) initial22 = Ok s /\
    ECA.evolve (PyInt 2) s = (s', Ok tt) /\
    spacetime_field (PyInt 22) initial22 (PyInt 2) = Ok (ECA.self_spacetime s').
Proof.
  destruct (spacetime_field_agrees_with_ECA 22 initial22 2)
    as (s & s' & Hinit & Hev & Hfield & _).
  - unfold valid_rule. lia.
  - repeat constructor; unfold is_digit; lia.
  - lia.
  - exists s, s'. auto.
Defined.

(** * Further properties of the code *)

(** ** [lookup_table]: validation, numbering, round trips *)

(** The two outcomes of [lookup_table]. *)
Lemma lookup_table_cases (rn : py_num) :
  (exists r d, rn = PyInt r /\ valid_rule r /\ lookup_table rn = Ok d) \/
  ((forall r, rn = PyInt r -> r < 0 \/ 19682 < r) /\
   lookup_table rn
   = Raise (ValueError "rule_number must be an int between 0 and 19682, inclusive")).
Proof.
  destruct rn as [r|f].
  - destruct (Z_lt_dec r 0) as [Hlt|Hge]; [|destruct (Z_lt_dec 19682 r) as [Hgt|Hle]].
    + right. split; [intros r' [= <-]; lia|].
      unfold lookup_table. now replace (r <? 0) with true by lia.
    + right. split; [intros r' [= <-]; lia|].
      unfold lookup_table. replace (r >? 19682) with true by lia.
      now rewrite orb_true_r.
    + left. assert (Hr : valid_rule r) by (unfold valid_rule; lia).
      eexists r, _. split_and!; [reflexivity|assumption|].
      now apply lookup_table_digits.
  - right. split; [discriminate|reflexivity].
Qed.

(** X1. [lookup_table] either receives an integer in [0, 19682] and
    returns a table, or raises its ValueError: an integer out of range and
    a float are both rejected, and the [while] loop always comes to an
    end. *)
Theorem lookup_table_outcome (rn : py_num) :
  (exists r d, rn = PyInt r /\ valid_rule r /\ lookup_table rn = Ok d) \/
  ((forall r, rn = PyInt r -> r < 0 \/ 19682 < r) /\
   lookup_table rn
   = Raise (ValueError "rule_number must be an int between 0 and 19682, inclusive")).
Proof.
  destruct rn as [r|f].
  - destruct (Z_lt_dec r 0) as [Hlt|Hge]; [|destruct (Z_lt_dec 19682 r) as [Hgt|Hle]].
    + right. split; [intros r' [= <-]; lia|].
      unfold lookup_table. now replace (r <? 0) with true by lia.
    + right. split; [intros r' [= <-]; lia|].
      unfold lookup_table. replace (r >? 19682) with true by lia.
      now rewrite orb_true_r.
    + left. assert (Hr : valid_rule r) by (unfold valid_rule; lia).
      eexists r, _. split_and!; [reflexivity|assumption|].
      now apply lookup_table_digits.
  - right. split; [discriminate|reflexivity].
Qed.

(** X2. Wolfram numbering: for a valid rule number [r] the output for the
    neighborhood [(a, b)] is the ternary digit of [r] of weight
    [3 ^ (3a + b)], and the table has no other key than the nine
    neighborhoods. *)
Theorem wolfram_digit_formula (r a b : Z) :
  valid_rule r -> 0 <= a <= 2 -> 0 <= b <= 2 ->
  exists d,
    lookup_table (PyInt r) = Ok d /\
    d !! (a, b) = Some ((r / 3 ^ (3 * a + b)) mod 3) /\
    (forall k, k ∉ neighborhoods -> d !! k = None).
Proof.
  intros Hr Ha Hb. exists (dict (zip neighborhoods (rule_digits r))).
  pose proof (lookup_table_digits r Hr) as Hd. split_and!.
  - exact Hd.
  - rewrite (lookup_table_lookup r _ a b Hr Hd Ha Hb).
    unfold ternary_digit, neighborhood_index. cbn [fst snd].
    now rewrite Z2Nat.id by lia.
  - intros k Hk. now apply dict_zip_neighborhoods_None.
Qed.

Lemma wolfram_digit_formula_witness :
  exists d, lookup_table (PyInt 255) = Ok d /\ d !! (1, 2) = Some 1.
Proof.
  destruct (wolfram_digit_formula 255 1 2) as (d & Hd & Hv & _);
    [unfold valid_rule; lia|lia|lia|].
  exists d. split; [exact Hd|]. rewrite Hv. reflexivity.
Defined.

(** X3. Decoding a table gives its rule number back: reading the outputs
    of the table of a valid [r] in canonical order as ternary digits,
    least significant first, yields [r]. *)
Theorem rule_number_of_table (r : Z) (d : gmap (Z * Z) Z) :
  valid_rule r -> lookup_table (PyInt r) = Ok d ->
  rule_of_digits (map (fun k => default 0 (d !! k)) neighborhoods) = r.
Proof.
  intros Hr Hd. rewrite lookup_table_digits in Hd by assumption.
  assert (d = dict (zip neighborhoods (rule_digits r))) as -> by congruence.
  fold (outputs_of (dict (zip neighborhoods (rule_digits r)))).
  rewrite outputs_of_dict by reflexivity. now apply rule_of_rule_digits.
Qed.

Lemma rule_number_of_table_witness :
  rule_of_digits (map (fun k => default 0 (rule22_table !! k)) neighborhoods) = 22.
Proof.
  apply (rule_number_of_table 22 rule22_table).
  - unfold valid_rule. lia.
  - vm_compute. reflexivity.
Defined.

(** X4. Encoding nine chosen outputs gives a rule number with exactly
    that table: for outputs in {0,1,2}, one per neighborhood in canonical
    order, the number with these ternary digits is a valid rule number and
    [lookup_table] maps each neighborhood to its chosen output. *)
Theorem table_of_chosen_outputs (outs : list Z) :
  length outs = 9%nat -> Forall (fun o => 0 <= o <= 2) outs ->
  exists d,
    valid_rule (rule_of_digits outs) /\
    lookup_table (PyInt (rule_of_digits outs)) = Ok d /\
    map (fun k => d !! k) neighborhoods = map Some outs.
Proof.
  intros Hlen Hds.
  assert (Hr : valid_rule (rule_of_digits outs)).
  { pose proof (rule_of_digits_bounds _ Hds) as Hb. rewrite Hlen in Hb.
    change (3 ^ Z.of_nat 9) with 19683 in Hb. unfold valid_rule. lia. }
  exists (dict (zip neighborhoods outs)). split_and!.
  - exact Hr.
  - rewrite lookup_table_digits by assumption.
    now rewrite rule_digits_of_digits.
  - clear Hr Hds. do 9 (destruct outs as [|? outs]; [discriminate|]).
    destruct outs; [|discriminate]. vm_compute. reflexivity.
Qed.

Lemma table_of_chosen_outputs_witness :
  exists d,
    lookup_table (PyInt 15897) = Ok d /\
    map (fun k => d !! k) neighborhoods = map Some [0; 1; 2; 0; 1; 2; 0; 1; 2].
Proof.
  destruct (table_of_chosen_outputs [0; 1; 2; 0; 1; 2; 0; 1; 2]) as (d & _ & Hd & Hout).
  - reflexivity.
  - repeat constructor; lia.
  - exists d. split; [exact Hd|exact Hout].
Defined.

(** X5. On a negative number the loop [while n: n, r = divmod(n, 3)] never
    reaches 0 (floor division keeps it negative): no amount of fuel lets it
    return.  The guard of [lookup_table] keeps negative numbers away from
    the loop; the script, which has none, does not terminate on them. *)
Theorem while_n_negative_diverges (n : Z) :
  n < 0 ->
  (forall fuel nums, while_n fuel n nums = OutOfFuel) /\
  (forall length time g, three_state_spaghetti n length time g = OutOfFuel).
Proof.
  intros Hn.
  assert (Hloop : forall fuel m nums, m < 0 -> while_n fuel m nums = OutOfFuel).
  { induction fuel as [|fuel IH]; intros m nums Hm; [reflexivity|].
    cbn [while_n]. replace (m =? 0) with false by lia.
    assert (Hqr : Z.div_eucl m 3 = (m / 3, m mod 3)).
    { unfold Z.div, Z.modulo. now destruct (Z.div_eucl m 3). }
    rewrite Hqr. apply IH. apply Z.div_lt_upper_bound; lia. }
  split.
  - intros fuel nums. now apply Hloop.
  - intros length time g. unfold three_state_spaghetti.
    destruct (randint_loop (range length) g []) as [ic g'].
    now rewrite Hloop.
Qed.

Lemma while_n_negative_diverges_witness :
  while_n 1000 (-1) [] = OutOfFuel.
Proof. apply (proj1 (while_n_negative_diverges (-1) ltac:(lia))). Defined.

(** X6. On a number [n >= 0] the loop returns, with any fuel above [n]:
    it appends to [nums] the ternary numeral of [n], least significant
    digit first, without leading zero; the digits sum up to [n] with their
    weights. *)
Theorem while_n_ternary_numeral (n : Z) (fuel : nat) (nums : list string) :
  0 <= n -> (Z.to_nat n < fuel)%nat ->
  exists ds,
    while_n fuel n nums = Ok (nums ++ map str ds) /\
    Forall (fun d => 0 <= d <= 2) ds /\
    rule_of_digits ds = n /\
    (forall k d, ds !! k = Some d -> d = (n / 3 ^ Z.of_nat k) mod 3) /\
    last ds <> Some 0.
Proof.
  intros Hn Hfuel. exists (lsd_digits fuel n). split_and!.
  - now apply while_n_digits.
  - apply lsd_digits_is_digit.
  - revert n Hn Hfuel. induction fuel as [|fuel IH]; intros n Hn Hfuel; [lia|].
    cbn [lsd_digits]. destruct (Z.eqb_spec n 0) as [->|Hne]; [reflexivity|].
    cbn [rule_of_digits foldr]. fold (rule_of_digits (lsd_digits fuel (n / 3))).
    assert (n / 3 < n) by (apply Z.div_lt; lia).
    assert (0 <= n / 3) by (apply Z.div_pos; lia).
    rewrite IH by lia. pose proof (Z.div_mod n 3). lia.
  - revert n Hn Hfuel. induction fuel as [|fuel IH]; intros n Hn Hfuel k d Hk; [lia|].
    cbn [lsd_digits] in Hk. destruct (Z.eqb_spec n 0) as [->|Hne]; [discriminate|].
    assert (n / 3 < n) by (apply Z.div_lt; lia).
    assert (0 <= n / 3) by (apply Z.div_pos; lia).
    destruct k as [|k]; cbn in Hk.
    + injection Hk as <-. now rewrite Z.pow_0_r, Z.div_1_r.
    + apply (IH (n / 3)) in Hk; [|lia..]. rewrite Hk.
      rewrite Nat2Z.inj_succ, Z.pow_succ_r, Z.div_div by lia. reflexivity.
  - revert n Hn Hfuel. induction fuel as [|fuel IH]; intros n Hn Hfuel; [lia|].
    cbn [lsd_digits]. destruct (Z.eqb_spec n 0) as [->|Hne]; [discriminate|].
    assert (n / 3 < n) by (apply Z.div_lt; lia).
    assert (0 <= n / 3) by (apply Z.div_pos; lia).
    destruct (lsd_digits fuel (n / 3)) as [|d ds] eqn:Hds.
    + cbn. intros [= Hz].
      destruct fuel as [|fuel']; [lia|]. cbn [lsd_digits] in Hds.
      destruct (Z.eqb_spec (n / 3) 0) as [Hq|Hq]; [|discriminate].
      pose proof (Z.div_mod n 3). lia.
    + rewrite last_cons_cons. rewrite <- Hds. apply IH; lia.
Qed.

Lemma while_n_ternary_numeral_witness :
  exists ds, while_n 23 22 [] = Ok (map str ds) /\ rule_of_digits ds = 22.
Proof.
  destruct (while_n_ternary_numeral 22 23 []) as (ds & Hw & _ & Hsum & _); [lia|lia|].
  exists ds. split; [exact Hw|exact Hsum].
Defined.

(** ** [unit_seed] and [random_string] *)

Lemma list_mul_singleton {A : Type} (x : A) (k : Z) :
  list_mul [x] k = replicate (Z.to_nat k) x.
Proof.
  unfold list_mul. induction (Z.to_nat k) as [|j IH]; [reflexivity|].
  cbn [replicate List.concat app]. now rewrite IH.
Qed.

Lemma unit_seed_int m :
  0 <= m ->
  unit_seed (PyInt m) = Ok (replicate (Z.to_nat m) 0 ++ 1 :: replicate (Z.to_nat m) 0).
Proof.
  intros Hm. unfold unit_seed. replace (m <? 0) with false by lia.
  now rewrite !list_mul_singleton.
Qed.

(** X7. For a margin [m >= 0], [unit_seed] returns a list of [2m + 1]
    cells whose cell of index [m] is 1 and whose other cells are 0; the
    list reads the same backwards, and it is an initial condition that
    [ECA] accepts with every valid rule number. *)
Theorem unit_seed_shape (m : Z) :
  0 <= m ->
  exists seed,
    unit_seed (PyInt m) = Ok seed /\
    Z.of_nat (length seed) = 2 * m + 1 /\
    (forall i, (i < length seed)%nat ->
       seed !! i = Some (if Z.of_nat i =? m then 1 else 0)) /\
    rev seed = seed /\
    (forall r, valid_rule r -> exists s, ECA.__init__ (PyInt r) seed = Ok s).
Proof.
  intros Hm. eexists. split; [now apply unit_seed_int|].
  set (k := Z.to_nat m). split_and!.
  - rewrite length_app. cbn [length]. rewrite !length_replicate. lia.
  - intros i Hi. rewrite length_app in Hi. cbn [length] in Hi.
    rewrite !length_replicate in Hi.
    destruct (Z.eqb_spec (Z.of_nat i) m) as [Heq|Hne].
    + assert (i = k) as -> by lia.
      rewrite lookup_app_r by (rewrite length_replicate; lia).
      rewrite length_replicate, Nat.sub_diag. reflexivity.
    + destruct (Nat.lt_ge_cases i k) as [Hlt|Hge].
      * rewrite lookup_app_l by (rewrite length_replicate; lia).
        now apply lookup_replicate_2.
      * rewrite lookup_app_r by (rewrite length_replicate; lia).
        rewrite length_replicate.
        destruct (i - k)%nat as [|j] eqn:Hj; [lia|]. cbn.
        apply lookup_replicate_2. lia.
  - rewrite rev_app_distr. cbn [rev]. rewrite rev_replicate.
    now rewrite <- app_assoc.
  - intros r Hr.
    destruct (init_valid r (replicate k 0 ++ 1 :: replicate k 0) Hr) as (d & _ & Hinit).
    + apply Forall_app. split; [|constructor].
      * apply Forall_replicate. unfold is_digit. lia.
      * unfold is_digit. lia.
      * apply Forall_replicate. unfold is_digit. lia.
    + eexists. exact Hinit.
Qed.

Lemma unit_seed_shape_witness :
  exists seed, unit_seed (PyInt 2) = Ok seed /\ seed !! 2%nat = Some 1.
Proof.
  destruct (unit_seed_shape 2) as (seed & Hseed & Hlen & Hcells & _); [lia|].
  exists seed. split; [exact Hseed|]. apply (Hcells 2%nat). lia.
Defined.


Lemma randint_loop_draws is_ g out :
  randint_loop is_ g out
  = (out ++ next_draws g (length is_),
     {| draws := draws g; drawn := (drawn g + length is_)%nat |}).
Proof.
  revert g out. induction is_ as [|i is_ IH]; intros g out.
  - cbn. rewrite app_nil_r, Nat.add_0_r. now destruct g.
  - cbn [randint_loop randint_0_2 length]. rewrite IH. cbn [draws drawn].
    unfold next_draws. cbn [draws drawn seq map].
    rewrite <- app_assoc. cbn [app]. f_equal. f_equal. lia.
Qed.

Lemma next_draws_valid g n : randint_in_range g -> valid_config (next_draws g n).
Proof.
  intros Hg. unfold next_draws. apply Forall_forall. intros x Hx.
  apply list_elem_of_In, in_map_iff in Hx as (k & <- & _). apply Hg.
Qed.

Lemma next_draws_length g n : length (next_draws g n) = n.
Proof. unfold next_draws. now rewrite length_map, length_seq. Qed.

(** X9. [random_string(length)] makes exactly [length] draws (none for a
    negative length) and returns them in the order drawn; as the generator
    returns values in {0,1,2}, the result has [length] cells, all of them
    cell values, and [ECA] accepts it with every valid rule number. *)
Theorem random_string_cells (length : Z) (g : rng) :
  randint_in_range g ->
  exists cells g',
    random_string length g = (cells, g') /\
    cells = map (draws g) (seq (drawn g) (Z.to_nat length)) /\
    List.length cells = Z.to_nat length /\
    Forall (fun c => 0 <= c <= 2) cells /\
    drawn g' = (drawn g + Z.to_nat length)%nat /\
    draws g' = draws g /\
    (forall r, valid_rule r -> exists s, ECA.__init__ (PyInt r) cells = Ok s).
Proof.
  intros Hg. unfold random_string. rewrite randint_loop_draws, range_length.
  eexists _, _. split; [reflexivity|]. cbn [app draws drawn]. split_and!.
  - reflexivity.
  - apply next_draws_length.
  - now apply next_draws_valid.
  - reflexivity.
  - reflexivity.
  - intros r Hr.
    destruct (init_valid r (next_draws g (Z.to_nat length)) Hr) as (d & _ & Hinit);
      [now apply next_draws_valid|].
    eexists. exact Hinit.
Qed.

Lemma random_string_cells_witness :
  exists cells g',
    random_string 3 {| draws := fun k => Z.of_nat k mod 3; drawn := 4 |} = (cells, g') /\
    cells = [1; 2; 0].
Proof.
  destruct (random_string_cells 3 {| draws := fun k => Z.of_nat k mod 3; drawn := 4 |})
    as (cells & g' & Hrun & Hcells & _).
  - intros k. cbn [draws]. pose proof (Z.mod_pos_bound (Z.of_nat k) 3). lia.
  - exists cells, g'. split; [exact Hrun|]. rewrite Hcells. reflexivity.
Defined.

(** ** Validation in [ECA.__init__] and [spacetime_field] *)

Lemma valid_config_dec c : {valid_config c} + {~ valid_config c}.
Proof.
  destruct (forallb in_012 c) eqn:Hb.
  - left. now apply forallb_in_012.
  - right. intros Hc. apply forallb_in_012 in Hc. congruence.
Qed.

(** The three outcomes of [__init__]. *)
Lemma init_cases (rn : py_num) (ic : list Z) :
  (~ Forall (fun c => 0 <= c <= 2) ic /\
   ECA.__init__ rn ic
   = Raise (ValueError "initial condition must be a list of 0s, 1s and 2s")) \/
  (Forall (fun c => 0 <= c <= 2) ic /\
   (forall r, rn = PyInt r -> r < 0 \/ 19682 < r) /\
   ECA.__init__ rn ic
   = Raise (ValueError "rule_number must be an int between 0 and 19682, inclusive")) \/
  (Forall (fun c => 0 <= c <= 2) ic /\
   exists r d, rn = PyInt r /\ valid_rule r /\ lookup_table rn = Ok d /\
     ECA.__init__ rn ic
     = Ok {| ECA.self_lookup_table := d;
             ECA.self_initial := ic;
             ECA.self_spacetime := [ic];
             ECA.self_current_configuration := ic;
             ECA.self_length := Z.of_nat (length ic) |}).
Proof.
  destruct (valid_config_dec ic) as [Hic|Hic].
  - right. destruct (lookup_table_cases rn) as [(r & d & -> & Hr & Hd)|[Hrn Hraise]].
    + right. split; [exact Hic|]. exists r, d. split_and!; try assumption; [reflexivity|].
      unfold ECA.__init__. rewrite (proj2 (forallb_in_012 ic) Hic). cbn [negb].
      now rewrite Hd.
    + left. split_and!; [exact Hic|exact Hrn|].
      unfold ECA.__init__. rewrite (proj2 (forallb_in_012 ic) Hic). cbn [negb].
      now rewrite Hraise.
  - left. split; [exact Hic|]. unfold ECA.__init__.
    destruct (forallb in_012 ic) eqn:Hb; [|reflexivity].
    exfalso. apply Hic. now apply forallb_in_012.
Qed.

(** X10. [ECA.__init__] checks the cells before the rule number: a cell
    outside {0,1,2} raises the initial-condition error whatever the rule
    number; with valid cells an invalid rule number raises the rule-number
    error; otherwise the engine is returned with the initial condition as
    current configuration and as the only row of the history. *)
Theorem init_outcome (rn : py_num) (ic : list Z) :
  (~ Forall (fun c => 0 <= c <= 2) ic /\
   ECA.__init__ rn ic
   = Raise (ValueError "initial condition must be a list of 0s, 1s and 2s")) \/
  (Forall (fun c => 0 <= c <= 2) ic /\
   (forall r, rn = PyInt r -> r < 0 \/ 19682 < r) /\
   ECA.__init__ rn ic
   = Raise (ValueError "rule_number must be an int between 0 and 19682, inclusive")) \/
  (Forall (fun c => 0 <= c <= 2) ic /\
   exists r d, rn = PyInt r /\ valid_rule r /\ lookup_table rn = Ok d /\
     ECA.__init__ rn ic
     = Ok {| ECA.self_lookup_table := d;
             ECA.self_initial := ic;
             ECA.self_spacetime := [ic];
             ECA.self_current_configuration := ic;
             ECA.self_length := Z.of_nat (length ic) |}).
Proof.
  destruct (valid_config_dec ic) as [Hic|Hic].
  - right. destruct (lookup_table_cases rn) as [(r & d & -> & Hr & Hd)|[Hrn Hraise]].
    + right. split; [exact Hic|]. exists r, d. split_and!; try assumption; [reflexivity|].
      unfold ECA.__init__. rewrite (proj2 (forallb_in_012 ic) Hic). cbn [negb].
      now rewrite Hd.
    + left. split_and!; [exact Hic|exact Hrn|].
      unfold ECA.__init__. rewrite (proj2 (forallb_in_012 ic) Hic). cbn [negb].
      now rewrite Hraise.
  - left. split; [exact Hic|]. unfold ECA.__init__.
    destruct (forallb in_012 ic) eqn:Hb; [|reflexivity].
    exfalso. apply Hic. now apply forallb_in_012.
Qed.

(** X11. [spacetime_field] checks the step count first, then the cells,
    then the rule number: a negative step count raises the step-count
    error even with invalid cells or rule number; with a non-negative
    count an invalid cell raises the initial-condition error even with an
    invalid rule number; a field is returned exactly when all three
    arguments are valid. *)
Theorem spacetime_field_outcome (rn : py_num) (ic : list Z) (n : Z) :
  (n < 0 /\
   spacetime_field rn ic (PyInt n)
   = Raise (ValueError "time_steps must be a non-negative integer")) \/
  (0 <= n /\ ~ Forall (fun c => 0 <= c <= 2) ic /\
   spacetime_field rn ic (PyInt n)
   = Raise (ValueError "initial condition must be a list of 0s, 1s and 2s")) \/
  (0 <= n /\ Forall (fun c => 0 <= c <= 2) ic /\
   (forall r, rn = PyInt r -> r < 0 \/ 19682 < r) /\
   spacetime_field rn ic (PyInt n)
   = Raise (ValueError "rule_number must be an int between 0 and 19682, inclusive")) \/
  (0 <= n /\ Forall (fun c => 0 <= c <= 2) ic /\
   exists r field, rn = PyInt r /\ valid_rule r /\
     spacetime_field rn ic (PyInt n) = Ok field).
Proof.
  destruct (Z_lt_dec n 0) as [Hlt|Hge].
  { left. split; [assumption|]. unfold spacetime_field, py_lt0.
    now replace (n <? 0) with true by lia. }
  right. assert (Hn : 0 <= n) by lia.
  destruct (valid_config_dec ic) as [Hic|Hic].
  - right.
    destruct (lookup_table_cases rn) as [(r & d & -> & Hr & Hd)|[Hrn Hraise]].
    + right. split_and!; try assumption. exists r. eexists.
      split_and!; [reflexivity|assumption|].
      now apply (spacetime_field_valid r ic n d).
    + left. split_and!; try assumption.
      rewrite spacetime_field_int by assumption.
      rewrite (proj2 (forallb_in_012 ic) Hic). cbn [negb]. now rewrite Hraise.
  - left. split_and!; try assumption.
    rewrite spacetime_field_int by assumption.
    destruct (forallb in_012 ic) eqn:Hb; [|reflexivity].
    exfalso. apply Hic. now apply forallb_in_012.
Qed.

(** X12. Step counts that are not finite: NaN is refused with the
    ValueError of the function ([int] raises ValueError, which the
    [except] clause replaces); plus infinity passes the sign test and makes
    [int] raise OverflowError, which is not caught; minus infinity is
    negative and gets the ValueError.  [evolve] leaves the engine as it
    was in all three cases. *)
Theorem non_finite_steps (s : ECA.obj) (rn : py_num) (ic : list Z) :
  ECA.evolve (PyFloat S754_nan) s
    = (s, Raise (ValueError "time_steps must be a non-negative integer")) /\
  ECA.evolve (PyFloat (S754_infinity false)) s = (s, Raise OverflowError) /\
  ECA.evolve (PyFloat (S754_infinity true)) s
    = (s, Raise (ValueError "time_steps must be a non-negative integer")) /\
  spacetime_field rn ic (PyFloat S754_nan)
    = Raise (ValueError "time_steps must be a non-negative integer") /\
  spacetime_field rn ic (PyFloat (S754_infinity false)) = Raise OverflowError /\
  spacetime_field rn ic (PyFloat (S754_infinity true))
    = Raise (ValueError "time_steps must be a non-negative integer").
Proof. split_and!; reflexivity. Qed.

(** ** What [evolve] changes and what it keeps *)

Lemma for_t_frame ts : forall s,
  let s' := (ECA.for_t ts s).1 in
  ECA.self_lookup_table s' = ECA.self_lookup_table s /\
  ECA.self_initial s' = ECA.self_initial s /\
  ECA.self_length s' = ECA.self_length s /\
  exists rows,
    ECA.self_spacetime s' = ECA.self_spacetime s ++ rows /\
    (length rows <= length ts)%nat /\
    ECA.self_current_configuration s'
      = default (ECA.self_current_configuration s) (last rows) /\
    ((ECA.for_t ts s).2 = Ok tt -> length rows = length ts).
Proof.
  induction ts as [|t ts IH]; intros s.
  - cbn. split_and!; try reflexivity. exists []. rewrite app_nil_r. easy.
  - cbn [ECA.for_t].
    destruct (for_i _ _ _ _ _) as [new| |] eqn:Hnew.
    + specialize (IH {| ECA.self_lookup_table := ECA.self_lookup_table s;
                        ECA.self_initial := ECA.self_initial s;
                        ECA.self_spacetime := ECA.self_spacetime s ++ [new];
                        ECA.self_current_configuration := new;
                        ECA.self_length := ECA.self_length s |}).
      cbn [ECA.self_lookup_table ECA.self_initial ECA.self_length
           ECA.self_spacetime ECA.self_current_configuration] in IH.
      destruct IH as (Htab & Hini & Hlen & rows & Hst & Hle & Hcur & Hok).
      cbn zeta. split_and!; try assumption.
      exists (new :: rows). split_and!.
      * rewrite Hst, <- app_assoc. reflexivity.
      * cbn [length]. lia.
      * rewrite Hcur. destruct rows as [|row rows]; [reflexivity|].
        rewrite last_cons_cons.
        destruct (last (row :: rows)) as [x|] eqn:Hx; [reflexivity|].
        now apply last_None in Hx.
      * intros Hres. cbn [length]. now rewrite Hok.
    + cbn. split_and!; try reflexivity. exists []. rewrite app_nil_r.
      split_and!; [reflexivity|cbn [length]; lia|reflexivity|discriminate].
    + cbn. split_and!; try reflexivity. exists []. rewrite app_nil_r.
      split_and!; [reflexivity|cbn [length]; lia|reflexivity|discriminate].
Qed.

(** X13. Whatever the engine state and the step count, and whether the
    call returns or raises, [evolve] leaves the table, the stored initial
    condition and the length untouched and only appends rows to the
    history: the old history is a prefix of the new one, and the current
    configuration is the last appended row (the old one when no row was
    appended). *)
Theorem evolve_only_appends (time_steps : py_num) (s : ECA.obj) :
  let s' := (ECA.evolve time_steps s).1 in
  ECA.self_lookup_table s' = ECA.self_lookup_table s /\
  ECA.self_initial s' = ECA.self_initial s /\
  ECA.self_length s' = ECA.self_length s /\
  exists rows,
    ECA.self_spacetime s' = ECA.self_spacetime s ++ rows /\
    ECA.self_current_configuration s'
      = default (ECA.self_current_configuration s) (last rows).
Proof.
  assert (Hsame : let s' := s in
    ECA.self_lookup_table s' = ECA.self_lookup_table s /\
    ECA.self_initial s' = ECA.self_initial s /\
    ECA.self_length s' = ECA.self_length s /\
    exists rows,
      ECA.self_spacetime s' = ECA.self_spacetime s ++ rows /\
      ECA.self_current_configuration s'
        = default (ECA.self_current_configuration s) (last rows)).
  { cbn. split_and!; try reflexivity. exists []. now rewrite app_nil_r. }
  unfold ECA.evolve. destruct (py_lt0 time_steps); [exact Hsame|].
  destruct (try_int time_steps) as [n| |]; try exact Hsame.
  destruct (for_t_frame (range n) s) as (Htab & Hini & Hlen & rows & Hst & _ & Hcur & _).
  cbn zeta. split_and!; try assumption. exists rows. split; assumption.
Qed.

Lemma evolve_cases time_steps s :
  well_formed s ->
  (exists e, ECA.evolve time_steps s = (s, Raise e) /\
     (e = ValueError "time_steps must be a non-negative integer" \/ e = OverflowError)) \/
  (exists n, 0 <= n /\ ECA.evolve time_steps s = (Nat.iter (Z.to_nat n) advance s, Ok tt)).
Proof.
  intros Hs. unfold ECA.evolve.
  destruct (py_lt0 time_steps) eqn:Hlt; [left; eauto|].
  unfold try_int.
  destruct time_steps as [n|[sg|sg| |sg m e]]; cbn [py_int].
  - right. exists n. unfold py_lt0 in Hlt. split; [lia|].
    rewrite for_t_well_formed, range_length by assumption. reflexivity.
  - right. exists 0. split; [lia|reflexivity].
  - left. eauto.
  - left. eauto.
  - destruct sg; [discriminate|]. right.
    set (k := if 0 <=? e then Z.pos m * 2 ^ e else Z.pos m / 2 ^ (- e)).
    assert (Hk : 0 <= k).
    { subst k. destruct (Z.leb_spec 0 e).
      - apply Z.mul_nonneg_nonneg; [lia|]. apply Z.pow_nonneg. lia.
      - apply Z.div_pos; [lia|]. apply Z.pow_pos_nonneg; lia. }
    exists k. split; [exact Hk|].
    rewrite for_t_well_formed, range_length by assumption. reflexivity.
Qed.

Lemma advance_consistent s : consistent s -> consistent (advance s).
Proof.
  intros (Hwf & Hlen & Hhead & Hlast & Hrows).
  pose proof Hwf as (Htab & Hcur & Hlen').
  unfold consistent. split_and!.
  - now apply advance_well_formed.
  - exact Hlen.
  - cbn. destruct (ECA.self_spacetime s); [discriminate|exact Hhead].
  - cbn. apply last_snoc.
  - cbn. apply Forall_app. split; [exact Hrows|]. constructor; [|constructor].
    split; [now apply sweep_valid|]. rewrite sweep_length. lia.
Qed.

Lemma iter_advance_consistent k s : consistent s -> consistent (Nat.iter k advance s).
Proof.
  intros Hs. induction k as [|k IH]; [assumption|].
  cbn [Nat.iter]. now apply advance_consistent.
Qed.

Lemma reachable_consistent s : reachable s -> consistent s.
Proof.
  induction 1 as [rn ic s Hinit|t s s' outcome Hreach IH Hev].
  - destruct (init_cases rn ic) as [[_ Hr]|[(_ & _ & Hr)|(Hic & r & d & -> & Hr & Hd & Hok)]];
      try congruence.
    rewrite Hok in Hinit. injection Hinit as <-.
    unfold consistent, well_formed. cbn.
    split_and!; try reflexivity; try assumption.
    + eapply lookup_table_total; eassumption.
    + constructor; [|constructor]. split; [assumption|reflexivity].
  - destruct (evolve_cases t s) as [(e & He & _)|(n & _ & Hn)]; [apply IH|..].
    + rewrite He in Hev. now injection Hev as <- _.
    + rewrite Hn in Hev. injection Hev as <- _. now apply iter_advance_consistent.
Qed.

(** X14. Every engine a caller can obtain from [ECA(...)] by calls of
    [evolve] keeps its history in order: row 0 is the initial condition,
    the last row is the current configuration, every row has the length of
    the initial condition and holds only 0, 1 and 2, and [_length] is that
    length. *)
Theorem reachable_history_in_order (s : ECA.obj) :
  reachable s ->
  ECA.self_spacetime s !! 0%nat = Some (ECA.self_initial s) /\
  last (ECA.self_spacetime s) = Some (ECA.self_current_configuration s) /\
  ECA.self_length s = Z.of_nat (length (ECA.self_initial s)) /\
  (forall row, row ∈ ECA.self_spacetime s ->
     length row = length (ECA.self_initial s) /\ Forall (fun c => 0 <= c <= 2) row).
Proof.
  intros Hs. apply reachable_consistent in Hs as (_ & Hlen & Hhead & Hlast & Hrows).
  split_and!; try assumption.
  - now rewrite <- head_lookup.
  - intros row Hrow. rewrite Forall_forall in Hrows.
    destruct (Hrows row Hrow) as [Hvalid Hl]. split; assumption.
Qed.

Lemma reachable_history_in_order_witness :
  last [initial22; [1;1;2;0;1;0]] = Some [1;1;2;0;1;0].
Proof.
  refine (proj1 (proj2 (reachable_history_in_order
    (engine22 [initial22; [1;1;2;0;1;0]] [1;1;2;0;1;0]) _))).
  apply (reachable_evolve (PyInt 1) (engine22 [initial22] initial22) _ (Ok tt)).
  - apply (reachable_init (PyInt 22) initial22). vm_compute. reflexivity.
  - vm_compute. reflexivity.
Defined.

(** X15. On an engine a caller can obtain, [evolve] never fails half way:
    either it raises for the step count alone (the ValueError, or the
    OverflowError of an infinite count) and the engine is unchanged, or it
    returns after appending one row per step; the table lookup and the
    indexing never raise. *)
Theorem reachable_evolve_all_or_nothing (s : ECA.obj) (time_steps : py_num) :
  reachable s ->
  (exists e, ECA.evolve time_steps s = (s, Raise e) /\
     (e = ValueError "time_steps must be a non-negative integer" \/ e = OverflowError)) \/
  (exists s' n, ECA.evolve time_steps s = (s', Ok tt) /\ 0 <= n /\
     try_int time_steps = Ok n /\
     length (ECA.self_spacetime s') = (length (ECA.self_spacetime s) + Z.to_nat n)%nat).
Proof.
  intros Hs. apply reachable_consistent in Hs as (Hwf & _).
  unfold ECA.evolve.
  destruct (py_lt0 time_steps) eqn:Hlt; [left; eauto|].
  destruct (try_int time_steps) as [n| |] eqn:Hint.
  - right. assert (Hn : 0 <= n).
    { destruct (evolve_cases time_steps s Hwf) as [(e & He & _)|(k & Hk & Hev)];
        unfold ECA.evolve in *; rewrite Hlt, Hint in *.
      - rewrite for_t_well_formed in He by assumption. discriminate.
      - unfold try_int in Hint.
        destruct time_steps as [z|[sg|sg| |sg m e]]; cbn [py_int] in Hint;
          try discriminate.
        + injection Hint as <-. unfold py_lt0 in Hlt. lia.
        + injection Hint as <-. lia.
        + destruct sg; [discriminate|]. injection Hint as <-.
          destruct (Z.leb_spec 0 e).
          * apply Z.mul_nonneg_nonneg; [lia|]. apply Z.pow_nonneg. lia.
          * apply Z.div_pos; [lia|]. apply Z.pow_pos_nonneg; lia. }
    eexists _, n. rewrite for_t_well_formed by assumption.
    split_and!; [reflexivity|assumption|reflexivity|].
    rewrite iter_advance_spacetime, length_app, generations_length, range_length.
    reflexivity.
  - left. exists e. split; [reflexivity|].
    unfold try_int in Hint.
    destruct time_steps as [z|[sg|sg| |sg m e']]; cbn [py_int] in Hint;
      try discriminate; injection Hint as <-; auto.
  - unfold try_int in Hint.
    destruct time_steps as [z|[sg|sg| |sg m e']]; cbn [py_int] in Hint; discriminate.
Qed.

Lemma reachable_evolve_all_or_nothing_witness :
  exists s', ECA.evolve (PyInt 2) (engine22 [initial22] initial22) = (s', Ok tt).
Proof.
  destruct (reachable_evolve_all_or_nothing (engine22 [initial22] initial22) (PyInt 2))
    as [(e & He & _)|(s' & n & Hev & _)].
  - apply (reachable_init (PyInt 22) initial22). vm_compute. reflexivity.
  - exfalso. revert He. vm_compute. discriminate.
  - exists s'. exact Hev.
Defined.

(** ** The rows of a spacetime field *)

Lemma generations_succ lookup k : forall cur t,
  (t < k)%nat ->
  (cur :: generations lookup k cur) !! S t
  = sweep lookup <$> (cur :: generations lookup k cur) !! t.
Proof.
  induction k as [|k IH]; intros cur t Ht; [lia|].
  cbn [generations]. destruct t as [|t]; [reflexivity|].
  change ((cur :: ?l) !! S ?i) with (l !! i).
  apply IH. lia.
Qed.

Lemma generations_valid lookup k : forall cur,
  total_table lookup -> valid_config cur ->
  Forall valid_config (generations lookup k cur).
Proof.
  induction k as [|k IH]; intros cur Htab Hcur; cbn [generations]; constructor.
  - now apply sweep_valid.
  - apply IH; [assumption|now apply sweep_valid].
Qed.

Lemma generations_add lookup n m : forall cur,
  generations lookup (n + m) cur
  = generations lookup n cur
    ++ generations lookup m (default cur (last (generations lookup n cur))).
Proof.
  induction n as [|n IH]; intros cur; [reflexivity|].
  cbn [Nat.add generations app]. rewrite IH. f_equal. f_equal. f_equal.
  destruct (generations lookup n (sweep lookup cur)) as [|row rows] eqn:Hrows;
    [reflexivity|].
  rewrite last_cons_cons.
  destruct (last (row :: rows)) as [x|] eqn:Hx; [reflexivity|].
  now apply last_None in Hx.
Qed.

(** X16. In the field that [spacetime_field] returns for valid arguments,
    row 0 is the initial condition and every later row follows from the
    row before it by the rule: its cell [i] is the table's output for the
    cells [(i-1) mod L] and [i] of the row before. *)
Theorem field_rows_follow_rule (r : Z) (ic : list Z) (n : Z) :
  valid_rule r -> Forall (fun c => 0 <= c <= 2) ic -> 0 <= n ->
  exists d field,
    lookup_table (PyInt r) = Ok d /\
    spacetime_field (PyInt r) ic (PyInt n) = Ok field /\
    field !! 0%nat = Some ic /\
    forall t previous next,
      field !! t = Some previous -> field !! S t = Some next ->
      forall i, (i < length ic)%nat ->
        exists left self out,
          previous !! Z.to_nat ((Z.of_nat i - 1) mod Z.of_nat (length ic)) = Some left /\
          previous !! i = Some self /\
          d !! (left, self) = Some out /\
          next !! i = Some out.
Proof.
  intros Hr Hic Hn.
  destruct (init_valid r ic Hr Hic) as (d & Hd & _).
  assert (Htab : total_table d) by (eapply lookup_table_total; eassumption).
  exists d, (ic :: generations d (Z.to_nat n) ic). split_and!.
  - exact Hd.
  - now apply spacetime_field_valid.
  - reflexivity.
  - intros t previous next Hprev Hnext i Hi.
    assert (Ht : (t < Z.to_nat n)%nat).
    { apply lookup_lt_Some in Hnext. cbn [length] in Hnext.
      rewrite generations_length in Hnext. lia. }
    rewrite generations_succ, Hprev in Hnext by assumption.
    injection Hnext as <-.
    assert (Hrow : valid_config previous /\ length previous = length ic).
    { pose proof (Forall_cons_2 _ _ _ Hic (generations_valid d (Z.to_nat n) ic Htab Hic)) as Hv.
      pose proof (Forall_cons_2 (fun row => length row = length ic) _ _ eq_refl
                    (generations_row_length d (Z.to_nat n) ic)) as Hl.
      split; [eapply Forall_lookup_1 in Hv|eapply Forall_lookup_1 in Hl]; eauto. }
    destruct Hrow as [Hvalid Hlen]. rewrite <- Hlen in Hi |- *.
    destruct (rule_output_digit d previous i Htab Hvalid Hi)
      as (left & self & v & Hleft & Hself & Hv & _ & Hout).
    exists left, self, v. split_and!; try assumption.
    now rewrite sweep_lookup.
Qed.

Lemma field_rows_follow_rule_witness :
  exists d field,
    lookup_table (PyInt 22) = Ok d /\
    spacetime_field (PyInt 22) initial22 (PyInt 2) = Ok field /\
    field !! 0%nat = Some initial22.
Proof.
  destruct (field_rows_follow_rule 22 initial22 2) as (d & field & Hd & Hf & H0 & _).
  - unfold valid_rule. lia.
  - repeat constructor; lia.
  - lia.
  - exists d, field. auto.
Defined.

(** X17. Cell values are closed under evolution: for valid arguments every
    cell of every row of the field is 0, 1 or 2. *)
Theorem field_cells_stay_valid (r : Z) (ic : list Z) (n : Z) :
  valid_rule r -> Forall (fun c => 0 <= c <= 2) ic -> 0 <= n ->
  exists field,
    spacetime_field (PyInt r) ic (PyInt n) = Ok field /\
    forall row c, row ∈ field -> c ∈ row -> c = 0 \/ c = 1 \/ c = 2.
Proof.
  intros Hr Hic Hn.
  destruct (init_valid r ic Hr Hic) as (d & Hd & _).
  assert (Htab : total_table d) by (eapply lookup_table_total; eassumption).
  exists (ic :: generations d (Z.to_nat n) ic). split.
  - now apply spacetime_field_valid.
  - intros row c Hrow Hc.
    pose proof (Forall_cons_2 _ _ _ Hic (generations_valid d (Z.to_nat n) ic Htab Hic)) as Hv.
    rewrite Forall_forall in Hv. specialize (Hv row Hrow).
    unfold valid_config in Hv. rewrite Forall_forall in Hv.
    specialize (Hv c Hc). unfold is_digit in Hv. lia.
Qed.

Lemma field_cells_stay_valid_witness :
  exists field,
    spacetime_field (PyInt 22) initial22 (PyInt 2) = Ok field /\
    forall row c, row ∈ field -> c ∈ row -> c = 0 \/ c = 1 \/ c = 2.
Proof.
  apply (field_cells_stay_valid 22 initial22 2).
  - unfold valid_rule. lia.
  - repeat constructor; lia.
  - lia.
Defined.

(** X18. Fields compose: the field for [n + m] steps is the field for [n]
    steps followed by the field for [m] steps from the last row of the
    former, without its row 0. *)
Theorem spacetime_field_composes (r : Z) (ic : list Z) (n m : Z) :
  valid_rule r -> Forall (fun c => 0 <= c <= 2) ic -> 0 <= n -> 0 <= m ->
  exists field_n last_n field_m,
    spacetime_field (PyInt r) ic (PyInt n) = Ok field_n /\
    last field_n = Some last_n /\
    spacetime_field (PyInt r) last_n (PyInt m) = Ok field_m /\
    spacetime_field (PyInt r) ic (PyInt (n + m)) = Ok (field_n ++ tail field_m).
Proof.
  intros Hr Hic Hn Hm.
  destruct (init_valid r ic Hr Hic) as (d & Hd & _).
  assert (Htab : total_table d) by (eapply lookup_table_total; eassumption).
  set (gens := generations d (Z.to_nat n) ic).
  set (last_n := default ic (last gens)).
  assert (Hlast : last (ic :: gens) = Some last_n).
  { subst last_n. destruct gens as [|row rows] eqn:Hg; [reflexivity|].
    rewrite last_cons_cons.
    destruct (last (row :: rows)) as [x|] eqn:Hx; [reflexivity|].
    now apply last_None in Hx. }
  assert (Hvalid : valid_config last_n).
  { pose proof (Forall_cons_2 _ _ _ Hic (generations_valid d (Z.to_nat n) ic Htab Hic)) as Hv.
    rewrite Forall_forall in Hv. apply Hv. eapply last_Some_elem_of, Hlast. }
  exists (ic :: gens), last_n, (last_n :: generations d (Z.to_nat m) last_n).
  split_and!.
  - now apply spacetime_field_valid.
  - exact Hlast.
  - now apply spacetime_field_valid.
  - rewrite (spacetime_field_valid r ic (n + m) d) by (assumption || lia).
    rewrite Z2Nat.inj_add, generations_add by lia. reflexivity.
Qed.

Lemma spacetime_field_composes_witness :
  exists field_n last_n field_m,
    spacetime_field (PyInt 22) initial22 (PyInt 1) = Ok field_n /\
    last field_n = Some last_n /\
    spacetime_field (PyInt 22) last_n (PyInt 1) = Ok field_m /\
    spacetime_field (PyInt 22) initial22 (PyInt (1 + 1)) = Ok (field_n ++ tail field_m).
Proof.
  apply (spacetime_field_composes 22 initial22 1 1).
  - unfold valid_rule. lia.
  - repeat constructor; lia.
  - lia.
  - lia.
Defined.

(** X19. Constant rules: for [c] in {0,1,2} the rule number [9841 c] (0,
    9841, 19682) sends every neighborhood to [c], so from any valid
    initial condition every row after row 0 holds [c] in every cell; with
    [c = 0] this is what [test_spacetime0] checks. *)
Theorem constant_rule_fields (c : Z) (ic : list Z) (n : Z) :
  0 <= c <= 2 -> Forall (fun x => 0 <= x <= 2) ic -> 0 <= n ->
  spacetime_field (PyInt (9841 * c)) ic (PyInt n)
  = Ok (ic :: replicate (Z.to_nat n) (replicate (length ic) c)).
Proof.
  intros Hc Hic Hn.
  assert (Hr : valid_rule (9841 * c)) by (unfold valid_rule; lia).
  destruct (init_valid (9841 * c) ic Hr Hic) as (d & Hd & _).
  assert (Htab : total_table d) by (eapply lookup_table_total; eassumption).
  rewrite (spacetime_field_valid _ ic n d) by assumption. f_equal. f_equal.
  assert (Hconst : forall a b, is_digit a -> is_digit b -> d !! (a, b) = Some c).
  { intros a b Ha Hb. rewrite (lookup_table_lookup _ d a b Hr Hd Ha Hb).
    unfold is_digit in Ha, Hb.
    assert (Ha' : a = 0 \/ a = 1 \/ a = 2) by lia.
    assert (Hb' : b = 0 \/ b = 1 \/ b = 2) by lia.
    assert (Hc' : c = 0 \/ c = 1 \/ c = 2) by lia.
    destruct Ha' as [->|[->| ->]], Hb' as [->|[->| ->]], Hc' as [->|[->| ->]];
      reflexivity. }
  assert (Hsweep : forall cur, valid_config cur -> sweep d cur = replicate (length cur) c).
  { intros cur Hcur. apply list_eq. intros i.
    destruct (Nat.lt_ge_cases i (length cur)) as [Hi|Hi].
    - rewrite sweep_lookup by assumption.
      destruct (rule_output_digit d cur i Htab Hcur Hi)
        as (left & self & v & Hleft & Hself & Hv & _ & Hout).
      rewrite Hout, lookup_replicate_2 by assumption. f_equal.
      rewrite Hconst in Hv; [congruence|..];
        eapply Forall_lookup_1; eassumption.
    - rewrite !(proj2 (lookup_ge_None _ _));
        [reflexivity|rewrite length_replicate; lia|rewrite sweep_length; lia]. }
  assert (Hcst : valid_config (replicate (length ic) c)).
  { apply Forall_replicate. exact Hc. }
  clear Hd Hr. revert Hic. generalize (Z.to_nat n). intros k.
  induction k as [|k IH]; intros Hic; [reflexivity|].
  cbn [generations replicate]. rewrite Hsweep by assumption. f_equal.
  destruct k as [|k]; [reflexivity|].
  cbn [generations replicate]. rewrite Hsweep, length_replicate by assumption.
  f_equal. specialize (IH Hic). cbn [generations replicate] in IH.
  rewrite Hsweep in IH by assumption. injection IH as IH. exact IH.
Qed.

Lemma constant_rule_fields_witness :
  spacetime_field (PyInt (9841 * 0)) initial22 (PyInt 2)
  = Ok [initial22; [0;0;0;0;0;0]; [0;0;0;0;0;0]].
Proof.
  apply (constant_rule_fields 0 initial22 2).
  - lia.
  - repeat constructor; lia.
  - lia.
Defined.

(** ** The lattice is a ring *)

Lemma rule_output_rotate lookup (cur : list Z) (k i : nat) :
  (i < length cur)%nat ->
  rule_output lookup (rotate k cur) i
  = rule_output lookup cur (rotate_nat_add k i (length cur)).
Proof.
  intros Hi. unfold rule_output. rewrite length_rotate.
  pose proof (left_index_bounds i (length cur) Hi) as Hj.
  rewrite !lookup_rotate_r by lia.
  replace (rotate_nat_add k (Z.to_nat ((Z.of_nat i - 1) mod Z.of_nat (length cur))) (length cur))
    with (Z.to_nat ((Z.of_nat (rotate_nat_add k i (length cur)) - 1) mod Z.of_nat (length cur)));
    [reflexivity|].
  unfold rotate_nat_add. f_equal.
  assert (HL : 0 < Z.of_nat (length cur)) by lia.
  rewrite !Z2Nat.id by (apply Z.mod_pos_bound; lia).
  rewrite Zminus_mod_idemp_l, Zplus_mod_idemp_r. f_equal. lia.
Qed.

Lemma sweep_rotate lookup (cur : list Z) (k : nat) :
  sweep lookup (rotate k cur) = rotate k (sweep lookup cur).
Proof.
  apply list_eq. intros i.
  destruct (Nat.lt_ge_cases i (length cur)) as [Hi|Hi].
  - rewrite lookup_rotate_r by (rewrite sweep_length; lia).
    rewrite sweep_length. unfold sweep at 1 2. rewrite length_rotate.
    change (map ?f ?l) with (f <$> l). rewrite !list_lookup_fmap.
    assert (Hlt : (rotate_nat_add k i (length cur) < length cur)%nat)
      by (apply rotate_nat_add_lt; lia).
    rewrite !lookup_seq_lt by assumption. cbn.
    now rewrite rule_output_rotate.
  - rewrite !(proj2 (lookup_ge_None _ _)); [reflexivity|..].
    + now rewrite length_rotate, sweep_length.
    + now rewrite sweep_length, length_rotate.
Qed.

Lemma generations_rotate lookup (k : nat) n : forall cur,
  generations lookup n (rotate k cur) = map (rotate k) (generations lookup n cur).
Proof.
  induction n as [|n IH]; intros cur; [reflexivity|].
  cbn [generations map]. now rewrite sweep_rotate, IH.
Qed.

(** X20. Evolution commutes with turning the ring: if the initial
    condition is rotated by [k] cells, every row of the field is the
    corresponding row of the original field rotated by [k] cells. *)
Theorem rotated_initial_condition (r : Z) (ic : list Z) (n : Z) (k : nat) :
  valid_rule r -> Forall (fun c => 0 <= c <= 2) ic -> 0 <= n ->
  exists field,
    spacetime_field (PyInt r) ic (PyInt n) = Ok field /\
    spacetime_field (PyInt r) (rotate k ic) (PyInt n) = Ok (map (rotate k) field).
Proof.
  intros Hr Hic Hn.
  destruct (init_valid r ic Hr Hic) as (d & Hd & _).
  exists (ic :: generations d (Z.to_nat n) ic). split.
  - now apply spacetime_field_valid.
  - rewrite (spacetime_field_valid r (rotate k ic) n d); try assumption.
    + cbn [map]. now rewrite generations_rotate.
    + apply Forall_forall. intros x Hx. apply elem_of_rotate in Hx.
      rewrite Forall_forall in Hic. now apply Hic.
Qed.

Lemma rotated_initial_condition_witness :
  spacetime_field (PyInt 22) (rotate 2 initial22) (PyInt 1)
  = Ok [[2;0;1;0;0;0]; [2;0;1;0;1;1]].
Proof.
  destruct (rotated_initial_condition 22 initial22 1 2) as (field & Hf & Hrot).
  - unfold valid_rule. lia.
  - repeat constructor; lia.
  - lia.
  - rewrite Hrot. f_equal.
    assert (Hfield : field = [initial22; [1;1;2;0;1;0]]).
    { assert (Heq : Ok field = Ok [initial22; [1;1;2;0;1;0]])
        by (rewrite <- Hf; vm_compute; reflexivity).
      now injection Heq. }
    rewrite Hfield. reflexivity.
Defined.

(** ** The script and the function *)

Lemma lsd_digits_take k : forall fuel n,
  0 <= n -> (Z.to_nat n < fuel)%nat ->
  take k (lsd_digits fuel n ++ replicate (k - length (lsd_digits fuel n)) 0)
  = map (ternary_digit n) (seq 0 k).
Proof.
  induction k as [|k IH]; intros fuel n Hn Hfuel; [reflexivity|].
  destruct fuel as [|fuel]; [lia|]. cbn [lsd_digits].
  destruct (Z.eqb_spec n 0) as [->|Hne].
  - cbn [length app]. rewrite Nat.sub_0_r, take_ge by (rewrite length_replicate; lia).
    clear. generalize 0%nat. induction (S k) as [|j IHj]; intros i; [reflexivity|].
    cbn [replicate seq map]. now rewrite ternary_digit_0, <- IHj.
  - assert (Hlt : n / 3 < n) by (apply Z.div_lt; lia).
    assert (Hq : 0 <= n / 3) by (apply Z.div_pos; lia).
    cbn [length app seq map take]. change (S k - S ?x)%nat with (k - x)%nat.
    rewrite IH by lia. f_equal.
    + unfold ternary_digit. now rewrite Z.pow_0_r, Z.div_1_r.
    + rewrite <- seq_shift, map_map. apply map_ext. intros i.
      symmetry. apply ternary_digit_S. lia.
Qed.

Lemma zip_take_r {A B : Type} (l : list A) (k : list B) :
  zip l k = zip l (take (length l) k).
Proof.
  revert k. induction l as [|x l IH]; intros [|y k]; cbn; try reflexivity.
  now rewrite <- IH.
Qed.

Lemma zip_map_str (ks : list (Z * Z)) (vs : list Z) :
  zip ks (map str vs) = map (fun kv => (kv.1, str kv.2)) (zip ks vs).
Proof.
  revert vs. induction ks as [|k ks IH]; intros [|v vs]; cbn; try reflexivity.
  now rewrite <- IH.
Qed.

Lemma str_dict_fmap (pairs : list ((Z * Z) * Z)) :
  str_dict (map (fun kv => (kv.1, str kv.2)) pairs) = str <$> dict pairs.
Proof.
  unfold str_dict, dict.
  assert (Hgen : forall (d : gmap (Z * Z) Z),
    foldl (fun (d : gmap (Z * Z) string) kv => <[kv.1 := kv.2]> d) (str <$> d)
      (map (fun kv => (kv.1, str kv.2)) pairs)
    = str <$> foldl (fun (d : gmap (Z * Z) Z) kv => <[kv.1 := kv.2]> d) d pairs).
  { induction pairs as [|[k v] pairs IH]; intros d; [reflexivity|].
    cbn [map foldl fst snd]. rewrite <- IH. f_equal. now rewrite fmap_insert. }
  rewrite <- Hgen. now rewrite fmap_empty.
Qed.

(** The table of the script for any number [n >= 0]: the characters of
    the nine low ternary digits of [n]. *)
Lemma script_table n :
  0 <= n ->
  exists nums,
    while_n (S (Z.to_nat n)) n [] = Ok nums /\
    let in_ternary := String.concat "" (rev nums) in
    let ternary_length := Z.of_nat (String.length in_ternary) in
    str_dict (zip neighborhoods (reversed_str
      (if negb (ternary_length =? 9)
       then (str_mul "0" (9 - ternary_length) ++ in_ternary)%string
       else in_ternary)))
    = str <$> dict (zip neighborhoods (rule_digits n)).
Proof.
  intros Hn. eexists. split; [apply while_n_digits; lia|]. cbn [app].
  set (ds := lsd_digits (S (Z.to_nat n)) n).
  assert (Hds : Forall is_digit ds) by apply lsd_digits_is_digit.
  cbn zeta. rewrite joined_length by assumption.
  set (joined := String.concat "" (rev (map str ds))).
  assert (Hin : (if negb (Z.of_nat (length ds) =? 9)
                 then (str_mul "0" (9 - Z.of_nat (length ds)) ++ joined)%string
                 else joined)
                = (str_mul "0" (9 - Z.of_nat (length ds)) ++ joined)%string).
  { destruct (Z.eqb_spec (Z.of_nat (length ds)) 9) as [->|_]; reflexivity. }
  rewrite Hin. subst joined. rewrite reversed_padded by assumption.
  replace (Z.to_nat (9 - Z.of_nat (length ds))) with (9 - length ds)%nat by lia.
  rewrite zip_take_r. change (length neighborhoods) with 9%nat.
  change (map str ?l) with (str <$> l) at 1. rewrite <- fmap_take.
  change (str <$> ?l) with (map str l) at 1.
  unfold ds. rewrite (lsd_digits_take 9) by lia.
  change (map (ternary_digit n) (seq 0 9)) with (rule_digits n).
  now rewrite zip_map_str, str_dict_fmap.
Qed.

Lemma ternary_digit_mod n k :
  (k < 9)%nat -> ternary_digit (n mod 19683) k = ternary_digit n k.
Proof.
  intros Hk. unfold ternary_digit.
  pose proof (Z.div_mod n 19683 ltac:(lia)) as Hn.
  set (q := n / 19683) in *. set (m := n mod 19683) in *.
  assert (H3k : 0 < 3 ^ Z.of_nat k) by (apply Z.pow_pos_nonneg; lia).
  assert (H19 : 19683 = 3 * 3 ^ (8 - Z.of_nat k) * 3 ^ Z.of_nat k).
  { rewrite <- Z.mul_assoc, <- Z.pow_add_r by lia.
    replace (8 - Z.of_nat k + Z.of_nat k) with 8 by lia. reflexivity. }
  assert (Hn' : n = 3 ^ (8 - Z.of_nat k) * q * 3 * 3 ^ Z.of_nat k + m).
  { rewrite Hn at 1. rewrite H19 at 1. ring. }
  rewrite Hn'. rewrite Z.div_add_l by lia.
  rewrite Z.add_comm, Z.mod_add by lia. reflexivity.
Qed.

Lemma rule_digits_mod n : rule_digits (n mod 19683) = rule_digits n.
Proof.
  unfold rule_digits. apply map_ext_in. intros k Hk. apply in_seq in Hk.
  apply ternary_digit_mod. lia.
Qed.

Lemma lookup_table_values r d k v :
  valid_rule r -> lookup_table (PyInt r) = Ok d -> d !! k = Some v -> is_digit v.
Proof.
  intros Hr Hd Hv. pose proof Hd as Hd'.
  rewrite lookup_table_digits in Hd' by assumption.
  assert (d = dict (zip neighborhoods (rule_digits r))) as Heq by congruence.
  assert (Hk : k ∈ neighborhoods).
  { apply (dict_zip_dom (rule_digits r)); [reflexivity|]. rewrite <- Heq. now exists v. }
  apply elem_of_neighborhoods in Hk as [Ha Hb]. destruct k as [a b]. cbn [fst snd] in *.
  rewrite (lookup_table_lookup r d a b Hr Hd Ha Hb) in Hv.
  injection Hv as <-. apply ternary_digit_is_digit.
Qed.

Lemma script_for_i_for_i (d : gmap (Z * Z) Z) len cur is_ : forall acc,
  (forall k v, d !! k = Some v -> is_digit v) ->
  script_for_i (str <$> d) len cur is_ acc = for_i d len cur is_ acc.
Proof.
  induction is_ as [|i is_ IH]; intros acc Hval; [reflexivity|].
  cbn [script_for_i for_i].
  destruct (py_index cur ((i - 1) mod len)) as [left| |]; cbn [bind]; try reflexivity.
  destruct (py_index cur i) as [self| |]; cbn [bind]; try reflexivity.
  unfold str_dict_get, dict_get. rewrite lookup_fmap.
  destruct (d !! (left, self)) as [v|] eqn:Hv; cbn; [|reflexivity].
  rewrite int_of_str_digit by eauto. cbn [bind]. now apply IH.
Qed.

Lemma script_for_t_generations (d : gmap (Z * Z) Z) ts : forall cur field,
  total_table d -> (forall k v, d !! k = Some v -> is_digit v) -> valid_config cur ->
  script_for_t (str <$> d) (Z.of_nat (length cur)) ts cur field
  = Ok (field ++ generations d (length ts) cur).
Proof.
  induction ts as [|t ts IH]; intros cur field Htab Hval Hcur.
  - cbn. now rewrite app_nil_r.
  - cbn [script_for_t length generations].
    rewrite script_for_i_for_i, for_i_sweep by assumption. cbn [bind].
    rewrite <- (sweep_length d cur) at 1.
    rewrite IH by (assumption || now apply sweep_valid).
    now rewrite <- app_assoc.
Qed.

(** The script on a number [n >= 0] and a non-negative length. *)
Lemma spaghetti_field n len time g :
  0 <= n -> 0 <= len -> randint_in_range g ->
  exists d,
    lookup_table (PyInt (n mod 19683)) = Ok d /\
    three_state_spaghetti n len time g
    = Ok (next_draws g (Z.to_nat len)
          :: generations d (Z.to_nat time) (next_draws g (Z.to_nat len))).
Proof.
  intros Hn Hlen Hg.
  assert (Hr : valid_rule (n mod 19683)).
  { unfold valid_rule. pose proof (Z.mod_pos_bound n 19683). lia. }
  exists (dict (zip neighborhoods (rule_digits (n mod 19683)))).
  pose proof (lookup_table_digits _ Hr) as Hd. split; [exact Hd|].
  unfold three_state_spaghetti. rewrite randint_loop_draws, range_length. cbn [app].
  destruct (script_table n Hn) as (nums & Hnums & Htable).
  rewrite Hnums. cbn [bind]. cbn zeta in Htable. rewrite Htable.
  rewrite <- rule_digits_mod.
  replace len with (Z.of_nat (length (next_draws g (Z.to_nat len)))) at 1
    by (rewrite next_draws_length; lia).
  rewrite script_for_t_generations.
  - now rewrite range_length.
  - eapply lookup_table_total; eassumption.
  - intros k v. now apply (lookup_table_values _ _ k v Hr Hd).
  - now apply next_draws_valid.
Qed.

(** X21. For a valid rule number and non-negative length and time, the
    script computes the field that [spacetime_field] returns for the same
    rule number, the drawn initial condition and the same number of
    steps. *)
Theorem script_agrees_with_spacetime_field (r len time : Z) (g : rng) :
  valid_rule r -> 0 <= len -> 0 <= time -> randint_in_range g ->
  three_state_spaghetti r len time g
  = spacetime_field (PyInt r) (random_string len g).1 (PyInt time).
Proof.
  intros Hr Hlen Htime Hg.
  destruct (spaghetti_field r len time g) as (d & Hd & Hrun);
    [unfold valid_rule in Hr; lia|assumption..|].
  rewrite Z.mod_small in Hd by (unfold valid_rule in Hr; lia).
  rewrite Hrun. unfold random_string. rewrite randint_loop_draws, range_length.
  cbn [fst app]. symmetry. apply spacetime_field_valid; try assumption.
  now apply next_draws_valid.
Qed.

Lemma script_agrees_with_spacetime_field_witness :
  three_state_spaghetti 110 4 3 {| draws := fun k => Z.of_nat k mod 3; drawn := 0 |}
  = spacetime_field (PyInt 110)
      (random_string 4 {| draws := fun k => Z.of_nat k mod 3; drawn := 0 |}).1 (PyInt 3).
Proof.
  apply script_agrees_with_spacetime_field.
  - unfold valid_rule. lia.
  - lia.
  - lia.
  - intros k. cbn [draws]. pose proof (Z.mod_pos_bound (Z.of_nat k) 3). lia.
Defined.

(** X22. The script checks nothing.  A rule number above 19682 is not
    refused: only its nine low ternary digits reach the table, so the
    script runs as for the number modulo 19683; and a negative time is not
    refused either: no step is made and the field is the initial
    condition alone. *)
Theorem script_unchecked_inputs (r len time : Z) (g : rng) :
  0 <= r -> 0 <= len -> randint_in_range g ->
  three_state_spaghetti r len time g
    = three_state_spaghetti (r mod 19683) len time g /\
  (time < 0 -> three_state_spaghetti r len time g = Ok [(random_string len g).1]).
Proof.
  intros Hr Hlen Hg.
  destruct (spaghetti_field r len time g Hr Hlen Hg) as (d & Hd & Hrun).
  assert (Hm : 0 <= r mod 19683 < 19683) by (apply Z.mod_pos_bound; lia).
  destruct (spaghetti_field (r mod 19683) len time g) as (d' & Hd' & Hrun');
    [lia|assumption..|].
  rewrite Z.mod_mod in Hd' by lia.
  assert (d' = d) as -> by congruence.
  split; [congruence|].
  intros Htime. rewrite Hrun. replace (Z.to_nat time) with 0%nat by lia.
  unfold random_string. now rewrite randint_loop_draws, range_length.
Qed.

Lemma script_unchecked_inputs_witness :
  three_state_spaghetti 19705 4 3 {| draws := fun k => Z.of_nat k mod 3; drawn := 0 |}
  = three_state_spaghetti 22 4 3 {| draws := fun k => Z.of_nat k mod 3; drawn := 0 |}.
Proof.
  refine (proj1 (script_unchecked_inputs 19705 4 3
            {| draws := fun k => Z.of_nat k mod 3; drawn := 0 |} _ _ _)).
  - lia.
  - lia.
  - intros k. cbn [draws]. pose proof (Z.mod_pos_bound (Z.of_nat k) 3). lia.
Defined.

(** X23. The run at the end of the module never fails: for a valid rule
    number and a non-negative number of steps, whatever the generator
    draws, [ECA(rule, random_string(length)).evolve(steps)] returns an
    engine whose history has [steps + 1] rows of [length] cells each (of
    no cell for a negative length), the field [spacetime_field] returns
    for the same arguments. *)
Theorem demo_run_completes (r len n : Z) (g : rng) :
  valid_rule r -> 0 <= n -> randint_in_range g ->
  exists s,
    demo_run r len n g = Ok s /\
    length (ECA.self_spacetime s) = S (Z.to_nat n) /\
    Forall (fun row => length row = Z.to_nat len) (ECA.self_spacetime s) /\
    spacetime_field (PyInt r) (random_string len g).1 (PyInt n)
      = Ok (ECA.self_spacetime s).
Proof.
  intros Hr Hn Hg. unfold demo_run, random_string.
  rewrite randint_loop_draws, range_length. cbn [app fst].
  set (ic := next_draws g (Z.to_nat len)).
  assert (Hic : valid_config ic) by now apply next_draws_valid.
  destruct (init_valid r ic Hr Hic) as (d & Hd & Hinit).
  rewrite Hinit. cbn [bind].
  pose proof (init_ok _ _ _ Hinit) as (Hs & _ & _).
  rewrite evolve_well_formed by assumption.
  eexists. split; [reflexivity|].
  rewrite iter_advance_spacetime. cbn [ECA.self_spacetime ECA.self_lookup_table
    ECA.self_current_configuration app]. split_and!.
  - cbn [length]. now rewrite generations_length.
  - constructor; [apply next_draws_length|].
    eapply Forall_impl; [apply generations_row_length|].
    cbn. intros row ->. apply next_draws_length.
  - now apply spacetime_field_valid.
Qed.

Lemma demo_run_completes_witness :
  exists s,
    demo_run 110 100 50 {| draws := fun k => Z.of_nat k mod 3; drawn := 0 |} = Ok s /\
    length (ECA.self_spacetime s) = 51%nat.
Proof.
  destruct (demo_run_completes 110 100 50
              {| draws := fun k => Z.of_nat k mod 3; drawn := 0 |})
    as (s & Hrun & Hlen & _).
  - unfold valid_rule. lia.
  - lia.
  - intros k. cbn [draws]. pose proof (Z.mod_pos_bound (Z.of_nat k) 3). lia.
  - exists s. split; [exact Hrun|exact Hlen].
Defined.
